(** * easym4b: the chapter pipeline of [easym4b/main.py]

    A shallow embedding of [clean_chapter_title], of the deduplication
    and numbering loops of [main], of [process_chapter] and of the
    dispatch of the jobs, followed by the properties of the pipeline.

    Conventions of the embedding.
    - A Python [str] is a [string]; a character is a code point below
      256.  Whitespace is what [str.isspace] and the pattern [\s] accept
      in that range.
    - A Python [dict] with string keys is a [gmap string _], a [set] of
      strings is a [gset string].
    - A [float] is carried as the rational it stands for; the
      subtraction of two floats, which rounds, is a section variable.
    - The media engine ([ffmpeg.probe], [ffmpeg.run]), [slugify] and
      the file system under [os.makedirs] are collaborators outside the
      repository: they are section variables.
    - An exception is a value of the result type. *)

From Stdlib Require Import Ascii String QArith Reals Lra.
From stdpp Require Import gmap strings list.
From Equations Require Import Equations.
From Equations.Prop Require Import Logic.

Local Open Scope string_scope.
Local Open Scope list_scope.
Local Open Scope nat_scope.

(** ** Characters and text *)

Module Text.

Abbreviation text := (list ascii).

(** [str.isspace] on the code points 0..255: TAB..CR, FS..US, SPACE,
    NEL and NBSP. *)
Definition is_space (c : ascii) : bool :=
  let n := nat_of_ascii c in
  ((9 <=? n) && (n <=? 13)) || ((28 <=? n) && (n <=? 32))
  || (n =? 133) || (n =? 160).

Definition lparen : ascii := "("%char.
Definition rparen : ascii := ")"%char.

Definition is_rparen (c : ascii) : bool := Ascii.eqb c rparen.
Definition is_lparen (c : ascii) : bool := Ascii.eqb c lparen.

(** [\s*], greedy: the text after the leading run of whitespace. *)
Fixpoint skip_spaces (s : text) : text :=
  match s with
  | c :: s' => if is_space c then skip_spaces s' else s
  | [] => []
  end.

(** [[^)]*], greedy: the text from the first closing parenthesis on. *)
Fixpoint skip_inner (s : text) : text :=
  match s with
  | c :: s' => if is_rparen c then s else skip_inner s'
  | [] => []
  end.

(** One attempt of the pattern [\s*\([^)]*\)] at the head of [s]: the
    text after the match, if there is one.  Neither star can usefully
    give characters back: what follows [\s*] must be an opening
    parenthesis, which is no whitespace, and what follows [[^)]*] must
    be the closing parenthesis it stopped at. *)
Definition match_at (s : text) : option text :=
  match skip_spaces s with
  | c :: s1 =>
      if is_lparen c then
        match skip_inner s1 with
        | _ :: s2 => Some s2
        | [] => None
        end
      else None
  | [] => None
  end.

(** [re.sub(r'\s*\([^)]*\)', '', s)]: scan from the left; where the
    pattern matches, drop the match and go on after it; elsewhere keep
    the character and move one position.  A match is never empty. *)
Equations? re_sub (s : text) : text by wf (length s) lt :=
  re_sub [] := [];
  re_sub (c :: s') with inspect (match_at (c :: s')) => {
    | exist _ (Some r) Hm := re_sub r;
    | exist _ None _ := c :: re_sub s' }.
Proof.
  assert (Hsp : forall t : text, length (skip_spaces t) <= length t).
  { induction t as [|a t IH]; simpl; [lia|].
    destruct (is_space a); simpl; lia. }
  assert (Hin : forall t : text, length (skip_inner t) <= length t).
  { induction t as [|a t IH]; simpl; [lia|].
    destruct (is_rparen a); simpl; lia. }
  unfold match_at in Hm. specialize (Hsp (c :: s')).
  destruct (skip_spaces (c :: s')) as [|a s1]; [discriminate|].
  destruct (is_lparen a); [|discriminate].
  specialize (Hin s1).
  destruct (skip_inner s1) as [|b s2]; [discriminate|].
  injection Hm as <-. simpl in *. lia.
Qed.

(** [str.strip()]. *)
Definition strip (s : text) : text :=
  rev (skip_spaces (rev (skip_spaces s))).

(** [str.rstrip()]. *)
Definition rstrip (s : text) : text := rev (skip_spaces (rev s)).

(** A run of whitespace. *)
Definition spaces (ws : text) : Prop := Forall (λ c, is_space c = true) ws.

(** A parenthesized span: an opening parenthesis with a closing one
    somewhere after it. *)
Definition has_span (t : text) : Prop :=
  exists u v w, t = u ++ lparen :: v ++ rparen :: w.

End Text.

(** A function on texts, as a function on strings. *)
Definition on_text (f : Text.text -> Text.text) (s : string) : string :=
  string_of_list_ascii (f (list_ascii_of_string s)).

(** [re.sub(r'\s*\([^)]*\)', '', s)], [s.strip()] and [s.rstrip()]. *)
Definition re_sub_paren : string -> string := on_text Text.re_sub.
Definition str_strip : string -> string := on_text Text.strip.

(** [clean_chapter_title(title)]. *)
Definition clean_chapter_title (title : string) : string :=
  str_strip (re_sub_paren title).

(** ** Formatting of integers *)

Module Fmt.

Definition digit (d : nat) : ascii := ascii_of_nat (48 + d).

(** The decimal digits of [n], most significant first; [fuel] bounds
    the number of digits. *)
Fixpoint dec_aux (fuel n : nat) (acc : list ascii) : list ascii :=
  match fuel with
  | 0 => acc
  | S fuel' =>
      let acc' := digit (n mod 10) :: acc in
      if n / 10 =? 0 then acc' else dec_aux fuel' (n / 10) acc'
  end.

(** [str(n)] for a natural number: it has at most [S n] digits. *)
Definition dec (n : nat) : list ascii := dec_aux (S n) n [].

(** [format(n, "0{w}d")] for a natural number. *)
Definition zpad (w n : nat) : list ascii :=
  replicate (w - length (dec n)) "0"%char ++ dec n.

Definition is_digit (c : ascii) : Prop := exists d, d < 10 /\ c = digit d.

(** The number a list of digits stands for. *)
Definition value (ds : list ascii) : nat :=
  foldl (λ a c, 10 * a + (nat_of_ascii c - 48)) 0 ds.

End Fmt.

Definition str_of_nat (n : nat) : string := string_of_list_ascii (Fmt.dec n).

Definition format_0d (w n : nat) : string := string_of_list_ascii (Fmt.zpad w n).

(** ** Chapters, as [ffmpeg.probe] reports them *)

(** A chapter of the probe: [float(chapter['start_time'])],
    [float(chapter['end_time'])] and the optional ['tags'] dictionary. *)
Record chapter := Chapter {
  start_time : Q;
  end_time : Q;
  tags : option (gmap string string)
}.

(** [chapter.get('tags', {}).get('title', f'Chapter_{i+1:03d}')]. *)
Definition fallback_title (i : nat) : string := "Chapter_" +:+ format_0d 3 (i + 1).

Definition chapter_title (i : nat) (ch : chapter) : string :=
  default (fallback_title i) (default (∅ : gmap string string) (tags ch) !! "title").

(** An entry of [deduped_chapters]: [(i, start_time, end_time, title)]. *)
Definition survivor : Type := nat * Q * Q * string.

Definition survivor_of (i : nat) (ch : chapter) : survivor :=
  (i, start_time ch, end_time ch, chapter_title i ch).

(** The two variables the first loop of [main] updates. *)
Record dedup_state := DedupState {
  processed_titles : gset string;
  deduped_chapters : list survivor
}.

Definition dedup_init : dedup_state := DedupState ∅ [].

(** The body of [for i, chapter in enumerate(chapters)]; a string is
    truthy when it is not empty. *)
Definition dedup_body (deduplicate : bool) (st : dedup_state) (i : nat) (ch : chapter)
  : dedup_state :=
  let title := chapter_title i ch in
  let clean_title := clean_chapter_title title in
  if deduplicate then
    if bool_decide (clean_title ≠ "") && bool_decide (clean_title ∉ processed_titles st) then
      DedupState ({[clean_title]} ∪ processed_titles st)
                 (deduped_chapters st ++ [(i, start_time ch, end_time ch, title)])
    else st
  else
    DedupState (processed_titles st)
               (deduped_chapters st ++ [(i, start_time ch, end_time ch, title)]).

(** The loop, from index [i] and state [st]. *)
Fixpoint dedup_loop (deduplicate : bool) (i : nat) (chapters : list chapter)
    (st : dedup_state) : dedup_state :=
  match chapters with
  | [] => st
  | ch :: rest => dedup_loop deduplicate (S i) rest (dedup_body deduplicate st i ch)
  end.

(** [deduped_chapters] after the loop of lines 91-102. *)
Definition dedupe (deduplicate : bool) (chapters : list chapter) : list survivor :=
  deduped_chapters (dedup_loop deduplicate 0 chapters dedup_init).

(** A survivor read back as a chapter: its title is now a tag. *)
Definition chapter_of (sv : survivor) : chapter :=
  let '(_, s, e, t) := sv in Chapter s e (Some {["title" := t]}).

(** The normalized title and the index of a survivor, and the survivor
    under another index. *)
Definition clean_of (sv : survivor) : string := clean_chapter_title sv.2.
Definition index_of (sv : survivor) : nat := sv.1.1.1.
Definition renumber (i : nat) (sv : survivor) : survivor := (i, sv.1.1.2, sv.1.2, sv.2).

(** What holds of the two variables once the chapters [l] have been
    walked with deduplication on. *)
Record dedup_inv (l : list chapter) (st : dedup_state) : Prop := DedupInv {
  inv_sub : deduped_chapters st `sublist_of` imap survivor_of l;
  inv_seen : forall k, k ∈ processed_titles st <-> k ∈ clean_of <$> deduped_chapters st;
  inv_all : forall k, k ∈ processed_titles st <->
    k ≠ "" /\ exists j ch, l !! j = Some ch /\ clean_chapter_title (chapter_title j ch) = k;
  inv_nodup : NoDup (clean_of <$> deduped_chapters st);
  inv_kept : forall i ch, l !! i = Some ch ->
    (survivor_of i ch ∈ deduped_chapters st <->
     clean_chapter_title (chapter_title i ch) ≠ "" /\
     forall sv, sv ∈ deduped_chapters st -> index_of sv < i ->
       clean_of sv ≠ clean_chapter_title (chapter_title i ch));
  inv_first : forall i ch, l !! i = Some ch ->
    (survivor_of i ch ∈ deduped_chapters st <->
     clean_chapter_title (chapter_title i ch) ≠ "" /\
     forall j chj, j < i -> l !! j = Some chj ->
       clean_chapter_title (chapter_title j chj) ≠ clean_chapter_title (chapter_title i ch))
}.

(** ** Numbering *)

(** [math.ceil(math.log10(m))] for an integer [m >= 1]: the least [k]
    with [m <= 10 ^ k].  [p] is [10 ^ k]; [fuel] bounds the search.
    The logarithm is taken at its real value; the rounding of the
    double that [math.log10] returns is left out (for the number of
    chapters a file can hold it does not move the ceiling).  [m] is a
    length plus one, so [math.log10] never gets the argument 0. *)
Fixpoint ceil_log10_aux (fuel k p m : nat) : nat :=
  match fuel with
  | 0 => k
  | S fuel' => if m <=? p then k else ceil_log10_aux fuel' (S k) (10 * p) m
  end.

Definition ceil_log10 (m : nat) : nat := ceil_log10_aux m 0 1 m.

(** [num_digits = math.ceil(math.log10(len(deduped_chapters) + 1))]. *)
Definition num_digits (deduped : list survivor) : nat :=
  ceil_log10 (length deduped + 1).

Inductive format := mp3 | wav | m4a | m4b.

Definition format_name (f : format) : string :=
  match f with mp3 => "mp3" | wav => "wav" | m4a => "m4a" | m4b => "m4b" end.

(** [os.path.join(a, b)] on a POSIX system. *)
Definition path_join (a b : string) : string :=
  match b with
  | String "/" _ => b
  | _ =>
      match rev (list_ascii_of_string a) with
      | [] => b
      | "/"%char :: _ => a +:+ b
      | _ => a +:+ "/" +:+ b
      end
  end.

(** The tuple appended to [chapter_args]; the progress bar, shared by
    all the tuples, is kept in the run and not in the tuple. *)
Record chapter_arg := ChapterArg {
  arg_input_file : string;
  arg_output_file : string;
  arg_start_time : Q;
  arg_end_time : Q;
  arg_format : format;
  arg_chapter_title : string;
  arg_global_metadata : gmap string string;
  arg_sample_rate : Z
}.

(** Values of the keyword dictionary given to [ffmpeg.output]. *)
Inductive value := VInt (n : Z) | VStr (s : string).

(** What [ffmpeg.run] is asked to do. *)
Record extract_call := ExtractCall {
  call_input_file : string;
  call_ss : Q;
  call_t : Q;
  call_output_file : string;
  call_output_args : gmap string value
}.

(** [global_metadata.get(k, '')]. *)
Definition get_tag (global_metadata : gmap string string) (k : string) : string :=
  default "" (global_metadata !! k).

(** The dictionary display of lines 31-36.  Python evaluates the items
    of a display from left to right and stores each under its key, so
    a later item replaces an earlier one with the same key. *)
Definition base_output_args (chapter_title : string)
    (global_metadata : gmap string string) (sample_rate : Z) : gmap string value :=
  <["metadata" := VStr ("album=" +:+ get_tag global_metadata "album")]>
  (<["metadata" := VStr ("artist=" +:+ get_tag global_metadata "artist")]>
  (<["metadata" := VStr ("title=" +:+ chapter_title)]>
  (<["ar" := VInt sample_rate]> ∅))).

(** [output_args.update({...})] of lines 38-52. *)
Definition codec_args (f : format) (output_args : gmap string value) : gmap string value :=
  match f with
  | mp3 => <["q" := VInt 2]> (<["ab" := VStr "128k"]> (<["acodec" := VStr "libmp3lame"]> output_args))
  | m4a | m4b => <["b:a" := VStr "128k"]> (<["acodec" := VStr "aac"]> output_args)
  | wav => <["acodec" := VStr "pcm_s16le"]> output_args
  end.

(** Lines 56-57: [output_args['c:v'] = 'copy'] when the probe shows a
    video stream. *)
Definition cover_args (has_cover : bool) (output_args : gmap string value) : gmap string value :=
  if has_cover then <["c:v" := VStr "copy"]> output_args else output_args.

Definition output_args_of (a : chapter_arg) (has_cover : bool) : gmap string value :=
  cover_args has_cover
    (codec_args (arg_format a)
       (base_output_args (arg_chapter_title a) (arg_global_metadata a) (arg_sample_rate a))).

(** Line 29 and lines 59-60: [ss=start_time, t=end_time - start_time];
    [float_sub] is the subtraction of floats, which rounds its
    result. *)
Definition extract_call_of (float_sub : Q -> Q -> Q) (a : chapter_arg) (has_cover : bool)
  : extract_call :=
  ExtractCall (arg_input_file a) (arg_start_time a)
    (float_sub (arg_end_time a) (arg_start_time a)) (arg_output_file a)
    (output_args_of a has_cover).

(** How a call of [process_chapter] ends. *)
Inductive outcome := Done | Raised.

Definition is_done (o : outcome) : bool :=
  match o with Done => true | Raised => false end.

Definition is_raised (o : outcome) : bool := negb (is_done o).

(** What one run of [main] leaves behind.  [main] has no [return]
    with a value: its caller gets [None], the operator sees the lines
    of [click.echo] and the progress bar. *)
Record run := Run {
  echoed : list string;
  folder_created : bool;
  bar_total : option nat;
  bar_updates : nat;
  submitted : list chapter_arg;
  raised : option string
}.

(** [os.makedirs(path)]: the empty path always raises
    [FileNotFoundError]; for another path [can_create] tells whether the
    file system lets the folder be made.  [None] is the normal return,
    otherwise the exception. *)
Definition os_makedirs (can_create : string -> bool) (path : string) : option string :=
  if bool_decide (path = "") then Some "FileNotFoundError"
  else if can_create path then None
  else Some "OSError".

Section Pipeline.

(** The collaborators: [slugify(text, max_length)] of python-slugify;
    the cover probe [ffmpeg.probe(input_file, select_streams='v')],
    one call per job, given with the job that makes it ([None] when it
    raises, otherwise whether ['streams'] is not empty); [ffmpeg.run],
    which succeeds or raises; the subtraction of floats; and the file
    system as [os.makedirs] meets it. *)
Variable slugify : string -> nat -> string.
Variable probe_cover : chapter_arg -> option bool.
Variable ffmpeg_run : extract_call -> bool.
Variable float_sub : Q -> Q -> Q.
Variable can_create : string -> bool.

(** [process_chapter(args)]: [Done] stands for the return after
    [progress_bar.update(1)], [Raised] for an exception of the probe
    or of [ffmpeg.run], which leaves the bar alone. *)
Definition process_chapter (a : chapter_arg) : outcome :=
  match probe_cover a with
  | None => Raised
  | Some has_cover =>
      if ffmpeg_run (extract_call_of float_sub a has_cover) then Done else Raised
  end.

(** The body of the second loop of [main] (lines 106-110). *)
Definition job_of (input_file output_folder : string) (fmt : format)
    (global_metadata : gmap string string) (sample_rate : Z)
    (width : nat) (i : nat) (sv : survivor) : chapter_arg :=
  let '(chapter_index, start_time, end_time, title) := sv in
  let numbered_title := format_0d width (i + 1) +:+ " - " +:+ title in
  let slugified_title := slugify numbered_title 100 in
  let output_file := path_join output_folder (slugified_title +:+ "." +:+ format_name fmt) in
  ChapterArg input_file output_file start_time end_time fmt title global_metadata sample_rate.

(** [chapter_args] after the second loop; [num_digits] is taken once,
    before the loop. *)
Definition build_jobs (input_file output_folder : string) (fmt : format)
    (global_metadata : gmap string string) (sample_rate : Z)
    (deduped : list survivor) : list chapter_arg :=
  let width := num_digits deduped in
  imap (job_of input_file output_folder fmt global_metadata sample_rate width) deduped.

(** [executor.map(process_chapter, chapter_args)] inside the [with]
    block: every tuple is submitted at once, each future ends with the
    outcome of its call, and leaving the block waits for all of them.
    The iterator [executor.map] returns is dropped, so the outcomes
    are never read. *)
Definition futures (chapter_args : list chapter_arg) : list outcome :=
  process_chapter <$> chapter_args.

Definition count_done (os : list outcome) : nat := length (filter (λ o, is_done o = true) os).
Definition count_raised (os : list outcome) : nat := length (filter (λ o, is_done o = false) os).

(** [ThreadPoolExecutor(max_workers=threads)] accepts [None] and the
    positive numbers; for any other number it raises [ValueError]
    before a job is submitted. *)
Definition valid_max_workers (threads : option Z) : bool :=
  match threads with
  | None => true
  | Some n => (0 <? n)%Z
  end.

(** The lines of the summary (lines 117-123). *)
Definition summary (deduplicate : bool) (total_chapters deduped_count : nat)
    (output_folder : string) : list string :=
  ("Successfully processed " +:+ str_of_nat total_chapters +:+ " chapters.")
  :: (if deduplicate then
        "After deduplication, " +:+ str_of_nat deduped_count
          +:+ " unique chapters remain in " +:+ output_folder
      else
        "All " +:+ str_of_nat deduped_count +:+ " chapters saved to " +:+ output_folder)
  :: [].

(** [main], after [get_file_info] has returned [chapters],
    [global_metadata] and [sample_rate].  [folder_exists] is
    [os.path.exists(output_folder)]; [threads] is the option
    [--threads], [None] when [os.cpu_count()] gave no default.  An
    exception of [os.makedirs] ends the run before the progress bar is
    made; an exception of the executor ends it after the jobs are
    built and before any is submitted. *)
Definition main (chapters : list chapter) (global_metadata : gmap string string)
    (sample_rate : Z) (folder_exists : bool)
    (input_file output_folder : string) (threads : option Z)
    (deduplicate : bool) (fmt : format) : run :=
  match chapters with
  | [] => Run ["No chapter information found in the M4B file."] false None 0 [] None
  | _ :: _ =>
      if folder_exists then
        Run ["Warning: Output folder '" +:+ output_folder +:+ "' already exists."]
            false None 0 [] None
      else
        match os_makedirs can_create output_folder with
        | Some exn => Run [] false None 0 [] (Some exn)
        | None =>
            let deduped_chapters := dedupe deduplicate chapters in
            let chapter_args :=
              build_jobs input_file output_folder fmt global_metadata sample_rate
                deduped_chapters in
            if valid_max_workers threads then
              let outcomes := futures chapter_args in
              Run (summary deduplicate (length chapters) (length deduped_chapters)
                     output_folder)
                  true (Some (length chapters)) (count_done outcomes) chapter_args None
            else
              Run [] true (Some (length chapters)) 0 []
                  (Some "ValueError: max_workers must be greater than 0")
        end
  end.

End Pipeline.

(** The jobs whose call of [process_chapter] raises. *)
Definition failed_jobs (probe_cover : chapter_arg -> option bool)
    (ffmpeg_run : extract_call -> bool) (float_sub : Q -> Q -> Q)
    (jobs : list chapter_arg) : list chapter_arg :=
  filter (λ a, is_raised (process_chapter probe_cover ffmpeg_run float_sub a) = true) jobs.

(** ** The probe of the input file *)

(** A stream of the probe: ['codec_type'] and the optional
    ['sample_rate'], read with [int(...)]. *)
Record stream := Stream {
  codec_type : string;
  stream_sample_rate : option Z
}.

(** The dictionary [ffmpeg.probe] returns, as far as [get_file_info]
    reads it: the optional keys ['chapters'], ['format'] (with its
    optional ['tags']) and ['streams']. *)
Record probe := Probe {
  probe_chapters : option (list chapter);
  probe_format : option (option (gmap string string));
  probe_streams : option (list stream)
}.

(** [get_file_info], from the dictionary of the probe on. *)
Definition get_file_info (p : probe) : list chapter * gmap string string * Z :=
  let chapters := default [] (probe_chapters p) in
  let global_metadata :=
    default (∅ : gmap string string) (default None (probe_format p)) in
  let audio_streams :=
    filter (λ s, codec_type s = "audio") (default [] (probe_streams p)) in
  let sample_rate :=
    match audio_streams with
    | audio_info :: _ => default 44100%Z (stream_sample_rate audio_info)
    | [] => 44100%Z
    end in
  (chapters, global_metadata, sample_rate).

(** [main] from the dictionary of the probe on (line 74 and the rest). *)
Definition main_of_probe (slugify : string -> nat -> string)
    (probe_cover : chapter_arg -> option bool) (ffmpeg_run : extract_call -> bool)
    (float_sub : Q -> Q -> Q) (can_create : string -> bool)
    (p : probe) (folder_exists : bool) (input_file output_folder : string)
    (threads : option Z) (deduplicate : bool) (fmt : format) : run :=
  let '(chapters, global_metadata, sample_rate) := get_file_info p in
  main slugify probe_cover ffmpeg_run float_sub can_create chapters global_metadata
    sample_rate folder_exists input_file output_folder threads deduplicate fmt.

(** The separator [os.path.join] puts after the folder [a]: none when
    [a] is empty or ends with a slash. *)
Definition join_separator (a : string) : string :=
  match rev (list_ascii_of_string a) with
  | [] => ""
  | "/"%char :: _ => ""
  | _ => "/"
  end.

(** Whether a text has a parenthesized span, as a test. *)
Fixpoint has_spanb (t : Text.text) : bool :=
  match t with
  | [] => false
  | c :: t' => (Text.is_lparen c && existsb Text.is_rparen t') || has_spanb t'
  end.

(** [numbered_title] of line 107. *)
Definition numbered_title (width i : nat) (title : string) : string :=
  format_0d width (i + 1) +:+ " - " +:+ title.

(** The order of Python on strings: by code point, a proper prefix
    first. *)
Fixpoint lex_ltb (a b : list ascii) : bool :=
  match a, b with
  | [], [] => false
  | [], _ :: _ => true
  | _ :: _, [] => false
  | x :: a', y :: b' =>
      (nat_of_ascii x <? nat_of_ascii y)
      || ((nat_of_ascii x =? nat_of_ascii y) && lex_ltb a' b')
  end.

Definition str_lt (s1 s2 : string) : Prop :=
  lex_ltb (list_ascii_of_string s1) (list_ascii_of_string s2) = true.

(** The normalized titles of the chapters, in order, those of the
    chapters from index [i] on, and the set of those that are not
    empty. *)
Definition clean_titles_from (i : nat) (chapters : list chapter) : list string :=
  imap (λ j ch, clean_chapter_title (chapter_title (i + j) ch)) chapters.

Definition clean_titles (chapters : list chapter) : list string :=
  clean_titles_from 0 chapters.

Definition title_keys (chapters : list chapter) : gset string :=
  list_to_set (filter (λ k, k ≠ "") (clean_titles chapters)).

(** * Properties *)

(** ** The pattern and the substitution *)

Module TextFacts.
Import Text.

Lemma is_lparen_true c : is_lparen c = true <-> c = lparen.
Proof. apply Ascii.eqb_eq. Qed.

Lemma is_rparen_true c : is_rparen c = true <-> c = rparen.
Proof. apply Ascii.eqb_eq. Qed.

Lemma is_rparen_false c : is_rparen c = false <-> c ≠ rparen.
Proof. apply Ascii.eqb_neq. Qed.

Lemma skip_spaces_app ws t : spaces ws -> skip_spaces (ws ++ t) = skip_spaces t.
Proof.
  induction 1 as [|c ws Hc _ IH]; simpl; [done|]. by rewrite Hc.
Qed.

Lemma skip_spaces_split s :
  exists ws, s = ws ++ skip_spaces s /\ spaces ws.
Proof.
  induction s as [|c s (ws & Hs & Hws)]; simpl.
  - exists []. split; [done | constructor].
  - destruct (is_space c) eqn:Hc.
    + exists (c :: ws). split; [simpl; congruence | by constructor].
    + exists []. split; [done | constructor].
Qed.

Lemma skip_spaces_head c t : skip_spaces t = c :: drop 1 (skip_spaces t) -> is_space c = false.
Proof.
  induction t as [|a t IH]; simpl; [done|].
  destruct (is_space a) eqn:Ha; [done|]. simpl. by intros [= <-].
Qed.

Lemma skip_spaces_cons_head s c t : skip_spaces s = c :: t -> is_space c = false.
Proof.
  intros H. apply (skip_spaces_head c s). by rewrite H.
Qed.

Lemma skip_inner_app inner t :
  rparen ∉ inner -> skip_inner (inner ++ rparen :: t) = rparen :: t.
Proof.
  induction inner as [|c inner IH]; simpl; intros Hn.
  - done.
  - apply not_elem_of_cons in Hn as [Hc Hn].
    apply not_eq_sym, is_rparen_false in Hc. rewrite Hc. auto.
Qed.

Lemma skip_inner_split s :
  exists inner, s = inner ++ skip_inner s /\ rparen ∉ inner.
Proof.
  induction s as [|c s (inner & Hs & Hin)]; simpl.
  - exists []. split; [done | apply not_elem_of_nil].
  - destruct (is_rparen c) eqn:Hc.
    + exists []. split; [done | apply not_elem_of_nil].
    + exists (c :: inner). split; [simpl; congruence|].
      apply not_elem_of_cons. split; [|done].
      apply not_eq_sym. by apply is_rparen_false.
Qed.

Lemma skip_inner_head s c t : skip_inner s = c :: t -> c = rparen.
Proof.
  induction s as [|a s IH]; simpl; [done|].
  destruct (is_rparen a) eqn:Ha; [|done].
  intros [= <- _]. by apply is_rparen_true.
Qed.

Lemma skip_inner_nil s : skip_inner s = [] <-> rparen ∉ s.
Proof.
  induction s as [|a s IH]; simpl.
  - split; [intros _; apply not_elem_of_nil | done].
  - destruct (is_rparen a) eqn:Ha.
    + apply is_rparen_true in Ha as ->. split; [done|].
      intros []. apply list_elem_of_here.
    + rewrite IH, not_elem_of_cons. apply is_rparen_false in Ha.
      split; [intros H; split; [congruence | done] | by intros [_ H]].
Qed.

(** The pattern matches at the head of [s], leaving [r], exactly when
    [s] is whitespace, an opening parenthesis, characters other than
    the closing parenthesis, the closing parenthesis, and [r]. *)
Lemma match_at_Some s r :
  match_at s = Some r <->
  exists ws inner, s = ws ++ lparen :: inner ++ rparen :: r /\ spaces ws /\ rparen ∉ inner.
Proof.
  unfold match_at. split.
  - intros H. destruct (skip_spaces_split s) as (ws & Hs & Hws).
    destruct (skip_spaces s) as [|c s1]; [done|].
    destruct (is_lparen c) eqn:Hc; [|done]. apply is_lparen_true in Hc as ->.
    destruct (skip_inner_split s1) as (inner & Hs1 & Hin).
    destruct (skip_inner s1) as [|d s2] eqn:Hd; [done|].
    apply skip_inner_head in Hd as ->. injection H as <-.
    exists ws, inner. by rewrite Hs, Hs1 at 1.
  - intros (ws & inner & -> & Hws & Hin).
    rewrite skip_spaces_app by done. simpl.
    by rewrite skip_inner_app.
Qed.

Lemma re_sub_nil : re_sub [] = [].
Proof. by simp re_sub. Qed.

Lemma re_sub_match c s r : match_at (c :: s) = Some r -> re_sub (c :: s) = re_sub r.
Proof.
  intros H. simp re_sub.
  destruct (inspect (match_at (c :: s))) as [[r'|] H']; simp re_sub; congruence.
Qed.

Lemma re_sub_nomatch c s : match_at (c :: s) = None -> re_sub (c :: s) = c :: re_sub s.
Proof.
  intros H. simp re_sub.
  destruct (inspect (match_at (c :: s))) as [[r'|] H']; simp re_sub; congruence.
Qed.

(** Induction along the scan of [re_sub]. *)
Lemma re_sub_scan_ind (P : text -> text -> Prop) :
  P [] [] ->
  (forall c s r, match_at (c :: s) = Some r -> P r (re_sub r) -> P (c :: s) (re_sub r)) ->
  (forall c s, match_at (c :: s) = None -> P s (re_sub s) -> P (c :: s) (c :: re_sub s)) ->
  forall s, P s (re_sub s).
Proof.
  intros Hnil Hm Hn s.
  remember (length s) as n eqn:Hlen.
  revert s Hlen. induction n as [n IH] using lt_wf_ind. intros s ->.
  destruct s as [|c s]; [by rewrite re_sub_nil|].
  destruct (match_at (c :: s)) as [r|] eqn:Hr.
  - rewrite (re_sub_match _ _ _ Hr). apply Hm; [done|].
    apply (IH (length r)); [|done].
    apply match_at_Some in Hr as (ws & inner & -> & _).
    rewrite !length_app. simpl. rewrite length_app. simpl. lia.
  - rewrite (re_sub_nomatch _ _ Hr). apply Hn; [done|].
    apply (IH (length s)); [simpl; lia | done].
Qed.

Lemma re_sub_match_any s r : match_at s = Some r -> re_sub s = re_sub r.
Proof. destruct s as [|c s]; [done|]. apply re_sub_match. Qed.

(** The substitution only deletes characters. *)
Lemma re_sub_sublist s : re_sub s `sublist_of` s.
Proof.
  apply (re_sub_scan_ind (λ s out, out `sublist_of` s)).
  - constructor.
  - intros c s' r Hr IH.
    apply match_at_Some in Hr as (ws & inner & -> & _).
    apply sublist_inserts_l. apply sublist_cons.
    apply sublist_inserts_l. by apply sublist_cons.
  - intros c s' _ IH. by apply sublist_skip.
Qed.

Lemma has_span_cons c t :
  has_span (c :: t) -> (c = lparen /\ rparen ∈ t) \/ has_span t.
Proof.
  intros (u & v & w & H). destruct u as [|a u]; simplify_eq/=.
  - left. split; [done|]. apply elem_of_app. right. apply list_elem_of_here.
  - right. by exists u, v, w.
Qed.

Lemma match_at_lparen s : rparen ∈ s -> is_Some (match_at (lparen :: s)).
Proof.
  intros Hin. destruct (skip_inner_split s) as (inner & Hs & Hinner).
  destruct (skip_inner s) as [|d r] eqn:Hd.
  - by apply skip_inner_nil in Hd.
  - apply skip_inner_head in Hd as Hdr. subst d. exists r.
    apply match_at_Some. exists [], inner. rewrite Hs at 1.
    split; [done|]. split; [constructor | done].
Qed.

(** No parenthesized span is left by the substitution. *)
Lemma re_sub_no_span s : ¬ has_span (re_sub s).
Proof.
  apply (re_sub_scan_ind (λ _ out, ¬ has_span out)).
  - intros (u & v & w & H). by destruct u.
  - auto.
  - intros c s' Hnone IH [[-> Hin]|Hs]%has_span_cons; [|done].
    assert (rparen ∈ s') as Hin' by (by apply (sublist_subseteq _ _ (re_sub_sublist s'))).
    apply match_at_lparen in Hin' as [r Hr]. congruence.
Qed.

Lemma has_span_sublist t t' : t `sublist_of` t' -> has_span t -> has_span t'.
Proof.
  intros Hsub (u & v & w & ->).
  apply sublist_app_l in Hsub as (u' & r1 & -> & Hu & Hsub).
  apply sublist_cons_l in Hsub as (m1 & r2 & -> & Hsub).
  apply sublist_app_l in Hsub as (v' & r3 & -> & Hv & Hsub).
  apply sublist_cons_l in Hsub as (m2 & w' & -> & Hsub).
  exists (u' ++ m1), (v' ++ m2), w'. by rewrite <- !app_assoc.
Qed.

(** Without an opening parenthesis the text is left as it is. *)
Lemma re_sub_no_lparen s : lparen ∉ s -> re_sub s = s.
Proof.
  apply (re_sub_scan_ind (λ s out, lparen ∉ s -> out = s)).
  - done.
  - intros c s' r Hr _ Hn. exfalso. apply Hn.
    apply match_at_Some in Hr as (ws & inner & -> & _).
    apply elem_of_app. right. apply list_elem_of_here.
  - intros c s' _ IH [_ Hn]%not_elem_of_cons. by rewrite IH.
Qed.

Lemma skip_spaces_nil s : skip_spaces s = [] <-> spaces s.
Proof.
  split.
  - intros H. destruct (skip_spaces_split s) as (ws & Hs & Hws).
    rewrite H, app_nil_r in Hs. by subst.
  - intros H. rewrite <- (app_nil_r s). by rewrite skip_spaces_app.
Qed.

Lemma skip_spaces_app_ne a b : skip_spaces a ≠ [] -> skip_spaces (a ++ b) = skip_spaces a ++ b.
Proof.
  induction a as [|c a IH]; simpl; [done|].
  destruct (is_space c); [done|]. done.
Qed.



Lemma skip_spaces_sublist s : skip_spaces s `sublist_of` s.
Proof.
  induction s as [|c s IH]; simpl; [done|].
  destruct (is_space c); [by apply sublist_cons | done].
Qed.

Lemma rstrip_sublist s : rstrip s `sublist_of` s.
Proof.
  unfold rstrip.
  destruct (skip_spaces_split (rev s)) as (ws & Hs & _).
  apply (f_equal (@rev ascii)) in Hs.
  rewrite rev_involutive, rev_app_distr in Hs.
  remember (rev (skip_spaces (rev s))) as x. rewrite Hs.
  by apply sublist_inserts_r.
Qed.

Lemma strip_sublist s : strip s `sublist_of` s.
Proof.
  etrans; [apply (rstrip_sublist (skip_spaces s)) | apply skip_spaces_sublist].
Qed.

Lemma rstrip_spaces u : spaces u -> rstrip u = [].
Proof.
  intros H. unfold rstrip.
  assert (skip_spaces (rev u) = []) as ->; [|done].
  apply skip_spaces_nil. by apply Forall_rev.
Qed.

Lemma rstrip_cons c u : ¬ spaces (c :: u) -> rstrip (c :: u) = c :: rstrip u.
Proof.
  intros Hn. unfold rstrip. simpl.
  destruct (decide (spaces u)) as [Hu|Hu].
  - rewrite skip_spaces_app by (by apply Forall_rev).
    assert (skip_spaces (rev u) = []) as -> by (by apply skip_spaces_nil, Forall_rev).
    simpl. destruct (is_space c) eqn:Hc; [|done].
    destruct Hn. by constructor.
  - rewrite skip_spaces_app_ne.
    + by rewrite rev_app_distr.
    + intros H%skip_spaces_nil. apply Hu.
      rewrite <- (rev_involutive u). by apply Forall_rev.
Qed.

Lemma match_at_no_lparen u rest :
  lparen ∉ u -> ¬ spaces u -> match_at (u ++ rest) = None.
Proof.
  intros Hl Hn. unfold match_at.
  destruct (skip_spaces_split u) as (ws & Hu & Hws).
  destruct (skip_spaces u) as [|d u'] eqn:Hd.
  - destruct Hn. by apply skip_spaces_nil.
  - rewrite Hu, <- app_assoc, skip_spaces_app by done. simpl.
    apply skip_spaces_cons_head in Hd as ->.
    destruct (is_lparen d) eqn:Hp; [|done].
    apply is_lparen_true in Hp as ->. destruct Hl.
    rewrite Hu. apply elem_of_app. right. apply list_elem_of_here.
Qed.

(** One span, with the whitespace before it: the text before the
    span loses its trailing whitespace, the span goes, and the scan
    goes on after the closing parenthesis. *)
Lemma re_sub_span u ws inner v :
  lparen ∉ u -> spaces ws -> rparen ∉ inner ->
  re_sub (u ++ ws ++ lparen :: inner ++ rparen :: v) = rstrip u ++ re_sub v.
Proof.
  intros Hu Hws Hin. induction u as [|c u IH].
  - simpl. apply re_sub_match_any, match_at_Some. by exists ws, inner.
  - apply not_elem_of_cons in Hu as [Hc Hu].
    destruct (decide (spaces (c :: u))) as [Hs|Hs].
    + rewrite rstrip_spaces by done. simpl.
      apply re_sub_match_any, match_at_Some.
      exists ((c :: u) ++ ws), inner. rewrite <- app_assoc.
      split; [done|]. split; [by apply Forall_app | done].
    + rewrite rstrip_cons by done. simpl.
      rewrite re_sub_nomatch, IH; [done | done |].
      apply (match_at_no_lparen (c :: u)); [|done].
      by apply not_elem_of_cons.
Qed.

Lemma has_span_further c t : has_span t -> has_span (c :: t).
Proof. intros (u & v & w & ->). by exists (c :: u), v, w. Qed.

(** Where no span is left to remove the substitution changes nothing. *)
Lemma re_sub_no_span_id s : ¬ has_span s -> re_sub s = s.
Proof.
  apply (re_sub_scan_ind (λ s out, ¬ has_span s -> out = s)).
  - done.
  - intros c s' r Hr _ Hn. exfalso. apply Hn.
    apply match_at_Some in Hr as (ws & inner & Heq & _).
    rewrite Heq. by exists ws, inner, r.
  - intros c s' _ IH Hn. rewrite IH; [done|].
    intros H. by apply Hn, has_span_further.
Qed.

Lemma has_spanb_spec t : has_span t <-> has_spanb t = true.
Proof.
  induction t as [|c t IH]; simpl.
  - split; [|done]. intros (u & v & w & H). by destruct u.
  - rewrite orb_true_iff, andb_true_iff, <- IH, is_lparen_true, existsb_exists.
    split.
    + intros [[-> Hin]|Hs]%has_span_cons; [left|by right].
      split; [done|]. exists rparen. split; [by apply list_elem_of_In|].
      by apply is_rparen_true.
    + intros [[-> (x & Hin & ->%is_rparen_true)]|Hs]; [|by apply has_span_further].
      apply list_elem_of_In, list_elem_of_split in Hin as (v & w & ->).
      by exists [], v, w.
Qed.

Lemma has_spanb_false t : has_spanb t = false -> ¬ has_span t.
Proof. intros H Hs%has_spanb_spec. congruence. Qed.



End TextFacts.

(** ** Strings and texts *)

Lemma chars_append (a b : string) :
  list_ascii_of_string (a +:+ b) = list_ascii_of_string a ++ list_ascii_of_string b.
Proof. induction a as [|c a IH]; simpl; [done | by rewrite IH]. Qed.

Lemma string_of_app (a b : list ascii) :
  string_of_list_ascii (a ++ b) = string_of_list_ascii a +:+ string_of_list_ascii b.
Proof. induction a as [|c a IH]; simpl; [done | by rewrite IH]. Qed.

Lemma chars_on_text f s : list_ascii_of_string (on_text f s) = f (list_ascii_of_string s).
Proof. unfold on_text. apply list_ascii_of_string_of_list_ascii. Qed.

Lemma chars_clean title :
  list_ascii_of_string (clean_chapter_title title)
  = Text.strip (Text.re_sub (list_ascii_of_string title)).
Proof. unfold clean_chapter_title, str_strip, re_sub_paren. by rewrite !chars_on_text. Qed.

Lemma chars_inj (a b : string) : list_ascii_of_string a = list_ascii_of_string b -> a = b.
Proof.
  intros H. rewrite <- (string_of_list_ascii_of_string a), H.
  apply string_of_list_ascii_of_string.
Qed.

(** ** The title normalizer *)




(** ** The deduplication loop *)

Module DedupFacts.

Lemma dedup_loop_snoc d i l x st :
  dedup_loop d i (l ++ [x]) st = dedup_body d (dedup_loop d i l st) (i + length l) x.
Proof.
  revert i st. induction l as [|c l IH]; intros i st; simpl.
  - by rewrite Nat.add_0_r.
  - rewrite IH. f_equal. lia.
Qed.

Lemma imap_survivor_snoc l x :
  imap survivor_of (l ++ [x]) = imap survivor_of l ++ [survivor_of (length l) x].
Proof. rewrite imap_app. simpl. by rewrite Nat.add_0_r. Qed.

Lemma elem_of_survivors l sv :
  sv ∈ imap survivor_of l <-> exists i ch, l !! i = Some ch /\ sv = survivor_of i ch.
Proof.
  rewrite elem_of_lookup_imap. split.
  - intros (i & ch & -> & Hi). by exists i, ch.
  - intros (i & ch & Hi & ->). by exists i, ch.
Qed.

Lemma survivor_of_index i ch j chj : survivor_of i ch = survivor_of j chj -> i = j.
Proof. unfold survivor_of. congruence. Qed.

(** The test of line 98, as a proposition. *)
Lemma dedup_body_true st i ch :
  let k := clean_chapter_title (chapter_title i ch) in
  dedup_body true st i ch =
  if decide (k ≠ "" /\ k ∉ processed_titles st) then
    DedupState ({[k]} ∪ processed_titles st) (deduped_chapters st ++ [survivor_of i ch])
  else st.
Proof.
  simpl. unfold dedup_body. destruct (decide _) as [[H1 H2]|Hn].
  - by rewrite !bool_decide_eq_true_2.
  - destruct (bool_decide (_ ≠ "")) eqn:E1; [|done].
    destruct (bool_decide (_ ∉ _)) eqn:E2; [|done].
    apply bool_decide_eq_true_1 in E1, E2. by destruct Hn.
Qed.

Lemma dedup_body_false st i ch :
  dedup_body false st i ch =
  DedupState (processed_titles st) (deduped_chapters st ++ [survivor_of i ch]).
Proof. done. Qed.

Lemma dedup_inv_index l st sv :
  dedup_inv l st -> sv ∈ deduped_chapters st ->
  exists i ch, l !! i = Some ch /\ sv = survivor_of i ch /\ i < length l.
Proof.
  intros [Hsub _ _ _ _ _] Hin.
  apply (sublist_subseteq _ _ Hsub), elem_of_survivors in Hin as (i & ch & Hi & ->).
  exists i, ch. split; [done|]. split; [done|]. by apply lookup_lt_Some in Hi.
Qed.

Lemma dedup_inv_init : dedup_inv [] dedup_init.
Proof.
  split; simpl.
  - constructor.
  - intros k. rewrite elem_of_nil. set_solver.
  - intros k. split; [set_solver|]. by intros (_ & j & ch & Hj & _).
  - constructor.
  - done.
  - done.
Qed.

Lemma dedup_inv_step l st x :
  dedup_inv l st -> dedup_inv (l ++ [x]) (dedup_body true st (length l) x).
Proof.
  intros Hinv. destruct Hinv as [Hsub Hseen Hall Hnd Hkept Hfirst].
  assert (Hinv : dedup_inv l st) by (by split).
  rewrite dedup_body_true.
  set (k := clean_chapter_title (chapter_title (length l) x)).
  assert (Hk : clean_of (survivor_of (length l) x) = k) by done.
  assert (Hold : forall sv, sv ∈ deduped_chapters st -> index_of sv < length l).
  { intros sv (i & ch & _ & -> & Hi)%(dedup_inv_index l st); done. }
  assert (Hnew : survivor_of (length l) x ∉ deduped_chapters st).
  { intros H%Hold. unfold index_of in H. simpl in H. lia. }
  destruct (decide _) as [[Hk1 Hk2]|Hn]; split; simpl.
  - rewrite imap_survivor_snoc. by apply sublist_app.
  - intros k'. rewrite fmap_app, elem_of_app, elem_of_union, elem_of_singleton, Hseen.
    simpl. rewrite list_elem_of_singleton, Hk. tauto.
  - intros k'. rewrite elem_of_union, elem_of_singleton, Hall. split.
    + intros [->|(Hne & j & ch & Hj & Hc)].
      * split; [done|]. exists (length l), x. split; [|done].
        apply lookup_snoc_Some. by right.
      * split; [done|]. exists j, ch. split; [|done]. by apply lookup_app_l_Some.
    + intros (Hne & j & ch & [[Hj Hl]|[-> ->]]%lookup_snoc_Some & Hc).
      * right. eauto.
      * by left.
  - rewrite fmap_app. apply NoDup_app. split; [done|]. split.
    + intros k' Hin. simpl. rewrite list_elem_of_singleton, Hk. intros ->.
      by apply Hk2, Hseen.
    + simpl. apply NoDup_singleton.
  - intros i ch [[Hi Hl]|[-> ->]]%lookup_snoc_Some.
    + rewrite elem_of_app, list_elem_of_singleton.
      split.
      * intros [Hin|Heq]; [|apply survivor_of_index in Heq; lia].
        apply (Hkept i ch Hl) in Hin as [H1 H2]. split; [done|].
        intros sv [Hsv|Hsv%list_elem_of_singleton]%elem_of_app Hlt; [by apply H2|].
        subst sv. unfold index_of in Hlt. simpl in Hlt. lia.
      * intros [H1 H2]. left. apply (Hkept i ch Hl). split; [done|].
        intros sv Hsv. apply H2, elem_of_app. by left.
    + split; [|intros _; apply elem_of_app; right; apply list_elem_of_here].
      intros _. split; [done|].
      intros sv [Hsv|Hsv%list_elem_of_singleton]%elem_of_app Hlt.
      * intros Heq. apply Hk2, Hseen. unfold k. rewrite <- Heq.
        by apply list_elem_of_fmap_2.
      * subst sv. unfold index_of in Hlt. simpl in Hlt. lia.
  - intros i ch [[Hi Hl]|[-> ->]]%lookup_snoc_Some.
    + rewrite elem_of_app, list_elem_of_singleton, (Hfirst i ch Hl).
      split.
      * intros [[H1 H2]|Heq]; [|apply survivor_of_index in Heq; lia].
        split; [done|]. intros j chj Hj [[_ Hjl]|[-> _]]%lookup_snoc_Some; [eauto | lia].
      * intros [H1 H2]. left. split; [done|].
        intros j chj Hj Hjl. apply H2; [done|]. by apply lookup_app_l_Some.
    + split; [|intros _; apply elem_of_app; right; apply list_elem_of_here].
      intros _. split; [done|].
      intros j chj Hj [[_ Hjl]|[-> _]]%lookup_snoc_Some; [|lia].
      intros Heq. apply Hk2, Hall. split; [done|]. eauto.
  - rewrite imap_survivor_snoc. by apply sublist_inserts_r.
  - done.
  - intros k'. rewrite Hall. split.
    + intros (Hne & j & ch & Hj & Hc). split; [done|].
      exists j, ch. split; [|done]. by apply lookup_app_l_Some.
    + intros (Hne & j & ch & [[Hj Hl]|[-> ->]]%lookup_snoc_Some & Hc).
      * eauto.
      * fold k in Hc. rewrite <- Hc in Hne |- *. apply Hall.
        destruct (decide (k ∈ processed_titles st)) as [Hin|Hnin]; [done|].
        by destruct Hn.
  - done.
  - intros i ch [[Hi Hl]|[-> ->]]%lookup_snoc_Some; [by apply Hkept|].
    split; [done|]. intros [H1 H2]. fold k in H1, H2.
    destruct (decide (k ∈ processed_titles st)) as [Hin|Hnin]; [|by destruct Hn].
    apply Hseen, list_elem_of_fmap in Hin as (sv & Hsv & Hin).
    destruct (H2 sv Hin (Hold sv Hin)). done.
  - intros i ch [[Hi Hl]|[-> ->]]%lookup_snoc_Some.
    + rewrite (Hfirst i ch Hl). split.
      * intros [H1 H2]. split; [done|].
        intros j chj Hj [[_ Hjl]|[-> _]]%lookup_snoc_Some; [eauto | lia].
      * intros [H1 H2]. split; [done|].
        intros j chj Hj Hjl. apply H2; [done|]. by apply lookup_app_l_Some.
    + split; [done|]. intros [H1 H2]. fold k in H1, H2.
      destruct (decide (k ∈ processed_titles st)) as [Hin|Hnin]; [|by destruct Hn].
      apply Hall in Hin as (_ & j & chj & Hj & Hc).
      destruct (H2 j chj); [by apply lookup_lt_Some in Hj | by apply lookup_app_l_Some | done].
Qed.

Lemma dedup_inv_loop l : dedup_inv l (dedup_loop true 0 l dedup_init).
Proof.
  induction l as [|x l IH] using rev_ind.
  - apply dedup_inv_init.
  - rewrite dedup_loop_snoc. by apply dedup_inv_step.
Qed.

End DedupFacts.

Lemma dedupe_false_all chapters : dedupe false chapters = imap survivor_of chapters.
Proof.
  unfold dedupe. induction chapters as [|x l IH] using rev_ind; [done|].
  rewrite DedupFacts.dedup_loop_snoc, DedupFacts.dedup_body_false. simpl.
  by rewrite IH, DedupFacts.imap_survivor_snoc.
Qed.

Lemma dedupe_sublist d chapters : dedupe d chapters `sublist_of` imap survivor_of chapters.
Proof.
  destruct d.
  - apply (inv_sub _ _ (DedupFacts.dedup_inv_loop chapters)).
  - by rewrite dedupe_false_all.
Qed.

Lemma dedupe_elem d chapters sv :
  sv ∈ dedupe d chapters -> exists i ch, chapters !! i = Some ch /\ sv = survivor_of i ch.
Proof.
  intros H. by apply (sublist_subseteq _ _ (dedupe_sublist d chapters)),
    DedupFacts.elem_of_survivors in H.
Qed.

(** C1.  With deduplication on, every survivor is a chapter of the
    input under its index and with its title; the chapter at index [i] is
    kept exactly when its normalized title is not empty and differs from
    the normalized title of every chapter kept before it; this is the
    same as being the first chapter of the input with that normalized
    title; a chapter whose normalized title is empty is dropped; no two
    survivors share a normalized title.  The loop is a function: a
    duplicate is skipped and nothing is raised. *)
Theorem dedupe_keeps_first_occurrence (chapters : list chapter) :
  (forall sv, sv ∈ dedupe true chapters ->
     exists i ch, chapters !! i = Some ch /\ sv = survivor_of i ch) /\
  (forall i ch, chapters !! i = Some ch ->
     (survivor_of i ch ∈ dedupe true chapters <->
      clean_chapter_title (chapter_title i ch) ≠ "" /\
      forall j chj, j < i -> chapters !! j = Some chj ->
        survivor_of j chj ∈ dedupe true chapters ->
        clean_chapter_title (chapter_title j chj) ≠ clean_chapter_title (chapter_title i ch)) /\
     (survivor_of i ch ∈ dedupe true chapters <->
      clean_chapter_title (chapter_title i ch) ≠ "" /\
      forall j chj, j < i -> chapters !! j = Some chj ->
        clean_chapter_title (chapter_title j chj) ≠ clean_chapter_title (chapter_title i ch)) /\
     (clean_chapter_title (chapter_title i ch) = "" -> survivor_of i ch ∉ dedupe true chapters)) /\
  NoDup (clean_of <$> dedupe true chapters).
Proof.
  pose proof (DedupFacts.dedup_inv_loop chapters) as Hinv.
  split; [apply dedupe_elem|]. split; [|apply (inv_nodup _ _ Hinv)].
  intros i ch Hi. split; [|split].
  - unfold dedupe. rewrite (inv_kept _ _ Hinv i ch Hi). split.
    + intros [H1 H2]. split; [done|]. intros j chj Hj _ Hin.
      by apply (H2 (survivor_of j chj)).
    + intros [H1 H2]. split; [done|]. intros sv Hin Hlt.
      destruct (DedupFacts.dedup_inv_index _ _ sv Hinv Hin) as (j & chj & Hj & -> & _).
      by apply (H2 j chj).
  - apply (inv_first _ _ Hinv i ch Hi).
  - intros Hk Hin. by apply (inv_first _ _ Hinv i ch Hi) in Hin as [Hne _].
Qed.

Lemma dedupe_keeps_first_occurrence_witness :
  let chapters :=
    [Chapter 0 1 (Some {["title" := "Ch1"]});
     Chapter 1 2 (Some {["title" := "Ch1 (alt take)"]});
     Chapter 2 3 (Some {["title" := "(bonus)"]});
     Chapter 3 4 (Some {["title" := "Ch2"]})] in
  ((0, 0%Q, 1%Q, "Ch1") ∈ dedupe true chapters) /\
  ((1, 1%Q, 2%Q, "Ch1 (alt take)") ∉ dedupe true chapters) /\
  ((2, 2%Q, 3%Q, "(bonus)") ∉ dedupe true chapters).
Proof.
  intros chapters.
  destruct (dedupe_keeps_first_occurrence chapters) as (_ & H & _).
  split; [|split].
  - apply (proj1 (proj2 (H 0 (Chapter 0 1 (Some {["title" := "Ch1"]})) eq_refl))).
    split; [by vm_compute | intros j chj Hj; lia].
  - intros Hin.
    apply (proj1 (proj2 (H 1 (Chapter 1 2 (Some {["title" := "Ch1 (alt take)"]})) eq_refl)))
      in Hin as [_ Hin].
    apply (Hin 0 (Chapter 0 1 (Some {["title" := "Ch1"]}))); [lia | done | by vm_compute].
  - apply (proj2 (proj2 (H 2 (Chapter 2 3 (Some {["title" := "(bonus)"]})) eq_refl))).
    by vm_compute.
Defined.

(** Three chapters titled "Ch1", "Ch1 (alt take)" and "Ch2": two
    survive, numbered with one digit. *)
Example dedupe_three_chapters :
  let chapters :=
    [Chapter 0 1 (Some {["title" := "Ch1"]});
     Chapter 1 2 (Some {["title" := "Ch1 (alt take)"]});
     Chapter 2 3 (Some {["title" := "Ch2"]})] in
  dedupe true chapters = [(0, 0%Q, 1%Q, "Ch1"); (2, 2%Q, 3%Q, "Ch2")] /\
  num_digits (dedupe true chapters) = 1.
Proof. by vm_compute. Qed.

(** C8.  For both values of the flag the survivors are a subsequence
    of the chapters of the input, each under its index, in the order of
    the input.  With the flag off every chapter survives: the list has
    the length of the input and its entry [i] holds the index, the times
    of chapter [i] and its title, which is the title tag when there is
    one and the fallback title otherwise. *)
Theorem dedupe_preserves_order (deduplicate : bool) (chapters : list chapter) :
  dedupe deduplicate chapters `sublist_of` imap survivor_of chapters /\
  dedupe false chapters = imap survivor_of chapters /\
  length (dedupe false chapters) = length chapters /\
  (forall i ch, chapters !! i = Some ch ->
     dedupe false chapters !! i
       = Some (i, start_time ch, end_time ch, chapter_title i ch) /\
     (forall t, default (∅ : gmap string string) (tags ch) !! "title" = Some t ->
        chapter_title i ch = t) /\
     (default (∅ : gmap string string) (tags ch) !! "title" = None ->
        chapter_title i ch = fallback_title i)).
Proof.
  split; [apply dedupe_sublist|]. split; [apply dedupe_false_all|]. split.
  - by rewrite dedupe_false_all, length_imap.
  - intros i ch Hi. split; [|split].
    + by rewrite dedupe_false_all, list_lookup_imap, Hi.
    + intros t Ht. unfold chapter_title. by rewrite Ht.
    + intros Ht. unfold chapter_title. by rewrite Ht.
Qed.

Lemma dedupe_preserves_order_witness :
  dedupe false [Chapter 0 1 (Some {["title" := "Ch1"]}); Chapter 1 2 None] !! 1
  = Some (1, 1%Q, 2%Q, "Chapter_002").
Proof.
  pose proof (dedupe_preserves_order false
    [Chapter 0 1 (Some {["title" := "Ch1"]}); Chapter 1 2 None]) as (_ & _ & _ & H).
  apply (H 1 (Chapter 1 2 None) eq_refl).
Defined.

(** ** Running the loop on its own output *)

Lemma chapter_title_chapter_of i sv : chapter_title i (chapter_of sv) = sv.2.
Proof.
  destruct sv as [[[j s] e] t]. unfold chapter_title. simpl.
  by rewrite lookup_singleton_eq.
Qed.

Lemma survivor_of_chapter_of i sv : survivor_of i (chapter_of sv) = renumber i sv.
Proof.
  unfold survivor_of. rewrite chapter_title_chapter_of.
  by destruct sv as [[[j s] e] t].
Qed.

Lemma chapter_of_renumber i sv : chapter_of (renumber i sv) = chapter_of sv.
Proof. by destruct sv as [[[j s] e] t]. Qed.

(** Survivors with distinct, non-empty, unseen normalized titles are
    all kept. *)
Lemma dedup_loop_fresh svs i st :
  NoDup (clean_of <$> svs) ->
  "" ∉ clean_of <$> svs ->
  (forall k, k ∈ clean_of <$> svs -> k ∉ processed_titles st) ->
  deduped_chapters (dedup_loop true i (chapter_of <$> svs) st)
  = deduped_chapters st ++ imap (λ j, renumber (i + j)) svs.
Proof.
  revert i st. induction svs as [|sv svs IH]; intros i st Hnd Hne Hfresh.
  - simpl. by rewrite app_nil_r.
  - rewrite fmap_cons in Hnd, Hne, Hfresh.
    apply NoDup_cons in Hnd as [Hsv Hnd].
    apply not_elem_of_cons in Hne as [Hne1 Hne].
    rewrite fmap_cons. cbn [dedup_loop].
    rewrite DedupFacts.dedup_body_true, chapter_title_chapter_of.
    fold (clean_of sv).
    destruct (decide _) as [_|Hn].
    + rewrite IH; [| done | done |]; simpl.
      * rewrite survivor_of_chapter_of, <- app_assoc, Nat.add_0_r. simpl.
        do 2 f_equal. apply imap_ext. intros j x _. simpl. f_equal. lia.
      * intros k Hk [->%elem_of_singleton|Hin]%elem_of_union; [done|].
        apply (Hfresh k); [|done]. by apply list_elem_of_further.
    + destruct Hn. split; [done|]. apply Hfresh, list_elem_of_here.
Qed.

Lemma dedupe_clean_nonempty chapters : "" ∉ clean_of <$> dedupe true chapters.
Proof.
  pose proof (DedupFacts.dedup_inv_loop chapters) as Hinv.
  intros H. apply (inv_seen _ _ Hinv), (inv_all _ _ Hinv) in H.
  by destruct H.
Qed.

(** C7.  Read back as chapters, the survivors of a deduplication all
    survive a second one: the second run returns them in the same order
    with the same times and titles, numbered from 0 by its own
    [enumerate]; as chapters the two results are equal. *)
Theorem dedupe_idempotent (chapters : list chapter) :
  dedupe true (chapter_of <$> dedupe true chapters) = imap renumber (dedupe true chapters) /\
  chapter_of <$> dedupe true (chapter_of <$> dedupe true chapters)
  = chapter_of <$> dedupe true chapters.
Proof.
  assert (dedupe true (chapter_of <$> dedupe true chapters)
          = imap renumber (dedupe true chapters)) as Heq.
  { unfold dedupe at 1. rewrite dedup_loop_fresh.
    - done.
    - apply (inv_nodup _ _ (DedupFacts.dedup_inv_loop chapters)).
    - apply dedupe_clean_nonempty.
    - intros k _. apply not_elem_of_empty. }
  split; [done|]. rewrite Heq, fmap_imap.
  rewrite <- (imap_const chapter_of). apply imap_ext.
  intros i sv _. unfold compose, const. apply chapter_of_renumber.
Qed.

(** ** Decimal formatting *)

Module FmtFacts.
Import Fmt.

Lemma digit_not_space d : d < 10 -> Text.is_space (digit d) = false.
Proof. intros H. do 10 (destruct d as [|d]; [done|]). lia. Qed.

Lemma digit_not_lparen d : d < 10 -> digit d ≠ Text.lparen.
Proof. intros H. do 10 (destruct d as [|d]; [done|]). lia. Qed.

Lemma digit_value d : d < 10 -> nat_of_ascii (digit d) - 48 = d.
Proof. intros H. do 10 (destruct d as [|d]; [done|]). lia. Qed.

Lemma dec_aux_acc fuel n acc : dec_aux fuel n acc = dec_aux fuel n [] ++ acc.
Proof.
  revert n acc. induction fuel as [|fuel IH]; intros n acc; cbn [dec_aux]; [done|].
  destruct (n / 10 =? 0); [done|].
  rewrite (IH _ (_ :: acc)), (IH _ [_]), <- app_assoc. done.
Qed.

Lemma dec_aux_step fuel n :
  dec_aux (S fuel) n [] =
  if n / 10 =? 0 then [digit (n mod 10)]
  else dec_aux fuel (n / 10) [] ++ [digit (n mod 10)].
Proof. cbn [dec_aux]. destruct (n / 10 =? 0); [done|]. apply dec_aux_acc. Qed.

Lemma dec_aux_digits fuel n : Forall is_digit (dec_aux fuel n []).
Proof.
  revert n. induction fuel as [|fuel IH]; intros n; [constructor|].
  assert (is_digit (digit (n mod 10))) as Hd.
  { exists (n mod 10). split; [|done]. apply Nat.mod_upper_bound. lia. }
  rewrite dec_aux_step. destruct (n / 10 =? 0).
  - by repeat constructor.
  - apply Forall_app. split; [apply IH | by repeat constructor].
Qed.

Lemma dec_aux_length fuel n w :
  1 <= w -> n < 10 ^ w -> length (dec_aux fuel n []) <= w.
Proof.
  revert n w. induction fuel as [|fuel IH]; intros n w Hw Hn; [simpl; lia|].
  rewrite dec_aux_step. destruct (n / 10 =? 0) eqn:Hq; [simpl; lia|].
  apply Nat.eqb_neq in Hq.
  destruct w as [|[|w]]; [lia | |].
  - exfalso. apply Hq. apply Nat.div_small. simpl in Hn. lia.
  - rewrite length_app. cbn [length].
    assert (length (dec_aux fuel (n / 10) []) <= S w); [|lia].
    apply IH; [lia|]. apply Nat.Div0.div_lt_upper_bound.
    by rewrite <- Nat.pow_succ_r'.
Qed.

Lemma value_snoc ds c : value (ds ++ [c]) = 10 * value ds + (nat_of_ascii c - 48).
Proof. unfold value. by rewrite foldl_app. Qed.

Lemma value_zero_cons ds : value ("0"%char :: ds) = value ds.
Proof. done. Qed.

(** With fuel above [n] the digits are those of [n]. *)
Lemma dec_aux_value fuel n : n < fuel -> value (dec_aux fuel n []) = n.
Proof.
  revert n. induction fuel as [|fuel IH]; intros n Hn; [lia|].
  rewrite dec_aux_step.
  pose proof (Nat.div_mod_eq n 10) as Hdm.
  pose proof (Nat.mod_upper_bound n 10) as Hm.
  destruct (n / 10 =? 0) eqn:Hq.
  - apply Nat.eqb_eq in Hq.
    change [digit (n mod 10)] with ([] ++ [digit (n mod 10)]).
    rewrite value_snoc, digit_value by lia.
    change (value []) with 0. lia.
  - apply Nat.eqb_neq in Hq. rewrite value_snoc, digit_value by lia.
    rewrite IH; [lia|].
    assert (n / 10 < n) by (apply Nat.div_lt; lia). lia.
Qed.

Lemma dec_value n : value (dec n) = n.
Proof. apply dec_aux_value. lia. Qed.

Lemma dec_last n : exists pre, dec n = pre ++ [digit (n mod 10)].
Proof.
  unfold dec. rewrite dec_aux_step. destruct (n / 10 =? 0); [by exists []|].
  by eexists.
Qed.

Lemma dec_length n w : 1 <= w -> n < 10 ^ w -> length (dec n) <= w.
Proof. apply dec_aux_length. Qed.

Lemma zpad_length w n : length (zpad w n) = max w (length (dec n)).
Proof. unfold zpad. rewrite length_app, length_replicate. lia. Qed.

Lemma zpad_value w n : value (zpad w n) = n.
Proof.
  unfold zpad. generalize (w - length (dec n)). intros k.
  induction k as [|k IH]; cbn [replicate app]; [apply dec_value|].
  by rewrite value_zero_cons.
Qed.

Lemma zpad_digits w n : Forall is_digit (zpad w n).
Proof.
  unfold zpad. apply Forall_app. split; [|apply dec_aux_digits].
  apply Forall_replicate. exists 0. split; [lia | done].
Qed.

Lemma zpad_last w n : exists pre, zpad w n = pre ++ [digit (n mod 10)].
Proof.
  destruct (dec_last n) as [pre Hp]. unfold zpad. rewrite Hp.
  eexists. by rewrite app_assoc.
Qed.

End FmtFacts.

(** ** The width of the sequence numbers *)

Lemma ceil_log10_aux_spec m fuel k :
  m <= 10 ^ (k + fuel) ->
  (forall j, j < k -> 10 ^ j < m) ->
  m <= 10 ^ ceil_log10_aux fuel k (10 ^ k) m /\
  forall j, j < ceil_log10_aux fuel k (10 ^ k) m -> 10 ^ j < m.
Proof.
  revert k. induction fuel as [|fuel IH]; intros k Hup Hlow; cbn [ceil_log10_aux].
  - by rewrite Nat.add_0_r in Hup.
  - destruct (m <=? 10 ^ k) eqn:Hle.
    + apply Nat.leb_le in Hle. done.
    + apply Nat.leb_gt in Hle. rewrite <- Nat.pow_succ_r'. apply IH.
      * by rewrite Nat.add_succ_comm.
      * intros j Hj. destruct (decide (j = k)) as [->|]; [done|]. apply Hlow. lia.
Qed.

(** [ceil_log10 m] is the least exponent [k] with [m <= 10 ^ k]. *)
Lemma ceil_log10_spec m :
  m <= 10 ^ ceil_log10 m /\ forall j, j < ceil_log10 m -> 10 ^ j < m.
Proof.
  apply (ceil_log10_aux_spec m m 0).
  - simpl. apply Nat.lt_le_incl, Nat.pow_gt_lin_r. lia.
  - intros j Hj. lia.
Qed.


(** ** The fallback title *)

Lemma string_length_of_list (l : list ascii) : String.length (string_of_list_ascii l) = length l.
Proof. induction l as [|c l IH]; simpl; [done | by rewrite IH]. Qed.

Lemma strip_fixed c t pre d :
  Text.is_space c = false -> Text.is_space d = false ->
  c :: t = pre ++ [d] -> Text.strip (c :: t) = c :: t.
Proof.
  intros Hc Hd Heq. unfold Text.strip. cbn [Text.skip_spaces]. rewrite Hc.
  rewrite Heq, rev_app_distr. cbn [rev app Text.skip_spaces]. rewrite Hd.
  change (d :: rev pre) with (rev [d] ++ rev pre).
  by rewrite <- rev_app_distr, rev_involutive.
Qed.

Lemma chars_fallback_title i :
  list_ascii_of_string (fallback_title i)
  = list_ascii_of_string "Chapter_" ++ Fmt.zpad 3 (i + 1).
Proof.
  unfold fallback_title, format_0d.
  by rewrite chars_append, list_ascii_of_string_of_list_ascii.
Qed.

(** The fallback title is its own normalized title. *)
Lemma clean_fallback_title i : clean_chapter_title (fallback_title i) = fallback_title i.
Proof.
  apply chars_inj. rewrite chars_clean, chars_fallback_title.
  rewrite TextFacts.re_sub_no_lparen.
  - destruct (FmtFacts.zpad_last 3 (i + 1)) as [pre Hp].
    cbn [list_ascii_of_string app].
    apply (strip_fixed _ _ (list_ascii_of_string "Chapter_" ++ pre)
             (Fmt.digit ((i + 1) mod 10))).
    + done.
    + apply FmtFacts.digit_not_space, Nat.mod_upper_bound. lia.
    + rewrite Hp. by cbn [list_ascii_of_string app].
  - intros [H|H]%elem_of_app.
    + assert (Text.lparen ∉ list_ascii_of_string "Chapter_") as Hn; [|done].
      apply (bool_decide_unpack _). by vm_compute.
    + pose proof (FmtFacts.zpad_digits 3 (i + 1)) as Hd.
      rewrite Forall_forall in Hd. apply Hd in H as (d & Hlt & Hdig).
      by apply (FmtFacts.digit_not_lparen d).
Qed.

(** C9.  A chapter at index [i] without a title tag has the raw title
    "Chapter_" followed by [i + 1] in decimal, padded with zeros to three
    digits.  That title is the one normalized for the test of the loop
    (it is its own normalized title) and the one every survivor with
    index [i] carries, whatever the flag; with the flag off the chapter
    survives under it.  At index 2 the title is "Chapter_003". *)
Theorem untitled_chapter_title (deduplicate : bool) (chapters : list chapter)
    (i : nat) (ch : chapter) :
  chapters !! i = Some ch ->
  default (∅ : gmap string string) (tags ch) !! "title" = None ->
  chapter_title i ch = "Chapter_" +:+ format_0d 3 (i + 1) /\
  Fmt.value (list_ascii_of_string (format_0d 3 (i + 1))) = i + 1 /\
  3 <= String.length (format_0d 3 (i + 1)) /\
  clean_chapter_title (chapter_title i ch) = "Chapter_" +:+ format_0d 3 (i + 1) /\
  (forall sv, sv ∈ dedupe deduplicate chapters -> index_of sv = i ->
     sv.2 = "Chapter_" +:+ format_0d 3 (i + 1)) /\
  dedupe false chapters !! i
    = Some (i, start_time ch, end_time ch, "Chapter_" +:+ format_0d 3 (i + 1)) /\
  (i = 2 -> chapter_title i ch = "Chapter_003").
Proof.
  intros Hi Hnone.
  assert (chapter_title i ch = fallback_title i) as Ht.
  { unfold chapter_title. by rewrite Hnone. }
  split; [done|]. split; [|split; [|split; [|split; [|split]]]].
  - unfold format_0d. rewrite list_ascii_of_string_of_list_ascii.
    apply FmtFacts.zpad_value.
  - unfold format_0d. rewrite string_length_of_list, FmtFacts.zpad_length. lia.
  - rewrite Ht. apply clean_fallback_title.
  - intros sv (j & chj & Hj & ->)%dedupe_elem Hidx.
    unfold index_of in Hidx. simpl in Hidx. subst j.
    rewrite Hi in Hj. injection Hj as <-. done.
  - rewrite dedupe_false_all, list_lookup_imap, Hi. simpl.
    unfold survivor_of. by rewrite Ht.
  - intros ->. by rewrite Ht.
Qed.

Lemma untitled_chapter_title_witness :
  chapter_title 2 (Chapter 20 30 None) = "Chapter_003".
Proof.
  apply (untitled_chapter_title true
           [Chapter 0 10 (Some {["title" := "Intro"]});
            Chapter 10 20 (Some ∅);
            Chapter 20 30 None] 2 (Chapter 20 30 None)); reflexivity.
Defined.

(** ** Numbering *)

(** The least exponent, read on the real logarithm: [w] is the ceiling
    of [log10 m]. *)
Lemma ceil_log10_real (m w : nat) :
  1 <= w -> 10 ^ (w - 1) < m <= 10 ^ w ->
  (INR w - 1 < ln (INR m) / ln 10 <= INR w)%R.
Proof.
  intros Hw [Hlo Hhi].
  assert (0 < ln 10)%R as H10.
  { rewrite <- ln_1. apply ln_increasing; lra. }
  assert (forall k, (0 < INR (10 ^ k))%R) as Hpos.
  { intros k. apply (lt_INR 0). pose proof (Nat.pow_nonzero 10 k). lia. }
  assert (forall k, ln (INR (10 ^ k)) = (INR k * ln 10)%R) as Hln.
  { intros k. rewrite pow_INR.
    replace (INR 10) with 10%R by (simpl; lra). apply ln_pow. lra. }
  split.
  - apply (Rmult_lt_reg_r (ln 10)); [done|].
    unfold Rdiv. rewrite Rmult_assoc, Rinv_l, Rmult_1_r by lra.
    replace (INR w - 1)%R with (INR (w - 1)) by (rewrite minus_INR by lia; simpl; lra).
    rewrite <- Hln. apply ln_increasing; [apply Hpos | by apply lt_INR].
  - apply (Rmult_le_reg_r (ln 10)); [done|].
    unfold Rdiv. rewrite Rmult_assoc, Rinv_l, Rmult_1_r by lra.
    rewrite <- Hln. apply le_INR in Hhi.
    destruct Hhi as [Hlt|Heq].
    + left. apply ln_increasing; [|done].
      apply Rlt_trans with (INR (10 ^ (w - 1))); [apply Hpos | by apply lt_INR].
    + right. by rewrite Heq.
Qed.

Lemma num_digits_bounds (deduped : list survivor) :
  deduped ≠ [] ->
  1 <= num_digits deduped /\
  10 ^ (num_digits deduped - 1) < length deduped + 1 <= 10 ^ num_digits deduped.
Proof.
  intros Hne. unfold num_digits.
  destruct (ceil_log10_spec (length deduped + 1)) as [Hup Hlow].
  assert (1 <= ceil_log10 (length deduped + 1)) as Hw.
  { destruct (ceil_log10 (length deduped + 1)); [|lia].
    destruct deduped; [done|]. simpl in Hup. lia. }
  split; [done|]. split; [|done]. apply Hlow. lia.
Qed.

Lemma format_0d_length (w n : nat) : 1 <= w -> n < 10 ^ w -> String.length (format_0d w n) = w.
Proof.
  intros Hw Hn. unfold format_0d.
  rewrite string_length_of_list, FmtFacts.zpad_length.
  pose proof (FmtFacts.dec_length n w Hw Hn). lia.
Qed.

(** C5.  For a batch that is not empty, the width [w] taken before the
    numbering loop is the ceiling of the decimal logarithm of the number
    of survivors plus one: [w - 1 < log10 (count + 1) <= w] on the reals,
    that is [10 ^ (w - 1) < count + 1 <= 10 ^ w], and [w] is the least
    such exponent.  The one width serves the whole batch: the job built
    for position [i] has as output file the folder joined with the slug
    of the sequence number [i + 1] written with this [w], " - " and the
    title, followed by the extension; that number fills exactly [w]
    characters and reads [i + 1].  Nine survivors give the width 1, ten
    give the width 2. *)
Theorem num_digits_is_ceil_log10
    (slugify : string -> nat -> string) (input_file output_folder : string)
    (fmt : format) (global_metadata : gmap string string) (sample_rate : Z)
    (deduped : list survivor) :
  deduped ≠ [] ->
  (INR (num_digits deduped) - 1 < ln (INR (length deduped + 1)) / ln 10
   <= INR (num_digits deduped))%R /\
  1 <= num_digits deduped /\
  10 ^ (num_digits deduped - 1) < length deduped + 1 <= 10 ^ num_digits deduped /\
  (forall k, length deduped + 1 <= 10 ^ k -> num_digits deduped <= k) /\
  (forall i (sv : survivor), deduped !! i = Some sv ->
     (exists job,
        build_jobs slugify input_file output_folder fmt global_metadata sample_rate deduped
          !! i = Some job /\
        arg_output_file job
        = path_join output_folder
            (slugify (format_0d (num_digits deduped) (i + 1) +:+ " - " +:+ sv.2) 100
               +:+ "." +:+ format_name fmt)) /\
     String.length (format_0d (num_digits deduped) (i + 1)) = num_digits deduped /\
     Fmt.value (list_ascii_of_string (format_0d (num_digits deduped) (i + 1))) = i + 1) /\
  (length deduped = 9 -> num_digits deduped = 1) /\
  (length deduped = 10 -> num_digits deduped = 2).
Proof.
  intros Hne. destruct (num_digits_bounds deduped Hne) as (Hw & Hlow & Hup).
  split; [by apply ceil_log10_real|].
  split; [done|]. split; [done|]. split; [|split; [|split]].
  - intros k Hk. destruct (ceil_log10_spec (length deduped + 1)) as [_ Hleast].
    destruct (decide (num_digits deduped <= k)) as [|Hgt]; [done|].
    unfold num_digits in *. specialize (Hleast k). lia.
  - intros i sv Hi. split; [|split].
    + exists (job_of slugify input_file output_folder fmt global_metadata sample_rate
                (num_digits deduped) i sv).
      split.
      * unfold build_jobs. apply list_lookup_imap_Some. by exists sv.
      * by destruct sv as [[[j s] e] t].
    + apply format_0d_length; [done|]. apply lookup_lt_Some in Hi. lia.
    + unfold format_0d. rewrite list_ascii_of_string_of_list_ascii.
      apply FmtFacts.zpad_value.
  - intros H9. unfold num_digits. by rewrite H9.
  - intros H10. unfold num_digits. by rewrite H10.
Qed.

Lemma num_digits_is_ceil_log10_witness :
  (exists job,
     build_jobs (λ s _, s) "in.m4b" "out" mp3 ∅ 44100%Z
       (replicate 9 (0, 0%Q, 1%Q, "Ch")) !! 0 = Some job /\
     arg_output_file job = "out/1 - Ch.mp3") /\
  (exists job,
     build_jobs (λ s _, s) "in.m4b" "out" mp3 ∅ 44100%Z
       (replicate 10 (0, 0%Q, 1%Q, "Ch")) !! 0 = Some job /\
     arg_output_file job = "out/01 - Ch.mp3") /\
  num_digits (replicate 9 (0, 0%Q, 1%Q, "Ch")) = 1 /\
  num_digits (replicate 10 (0, 0%Q, 1%Q, "Ch")) = 2.
Proof.
  assert (replicate 9 (0, 0%Q, 1%Q, "Ch") ≠ []) as H9 by done.
  assert (replicate 10 (0, 0%Q, 1%Q, "Ch") ≠ []) as H10 by done.
  pose proof (num_digits_is_ceil_log10 (λ s _, s) "in.m4b" "out" mp3 ∅ 44100%Z _ H9)
    as (_ & _ & _ & _ & Hjob9 & Hnine & _).
  pose proof (num_digits_is_ceil_log10 (λ s _, s) "in.m4b" "out" mp3 ∅ 44100%Z _ H10)
    as (_ & _ & _ & _ & Hjob10 & _ & Hten).
  split; [|split; [|split]].
  - destruct (Hjob9 0 (0, 0%Q, 1%Q, "Ch") eq_refl) as ((job & Hjob & Hfile) & _).
    exists job. split; [exact Hjob|]. rewrite Hfile. reflexivity.
  - destruct (Hjob10 0 (0, 0%Q, 1%Q, "Ch") eq_refl) as ((job & Hjob & Hfile) & _).
    exists job. split; [exact Hjob|]. rewrite Hfile. reflexivity.
  - apply Hnine. reflexivity.
  - apply Hten. reflexivity.
Defined.




(** ** The keyword dictionary of [process_chapter] *)

Lemma output_args_metadata (a : chapter_arg) (has_cover : bool) :
  output_args_of a has_cover !! "metadata"
  = Some (VStr ("album=" +:+ get_tag (arg_global_metadata a) "album")).
Proof.
  unfold output_args_of, cover_args, codec_args, base_output_args.
  destruct has_cover, (arg_format a); by simplify_map_eq.
Qed.

Lemma output_args_values (a : chapter_arg) (has_cover : bool) (k : string) (v : value) :
  output_args_of a has_cover !! k = Some v ->
  v = VInt (arg_sample_rate a) \/
  v = VStr ("album=" +:+ get_tag (arg_global_metadata a) "album") \/
  v ∈ [VStr "libmp3lame"; VStr "128k"; VInt 2; VStr "aac"; VStr "pcm_s16le"; VStr "copy"].
Proof.
  unfold output_args_of, cover_args, codec_args, base_output_args.
  destruct has_cover, (arg_format a); intros H;
    repeat (rewrite lookup_insert in H; case_decide;
            [injection H as <-; auto; right; right; set_solver|]);
    by rewrite lookup_empty in H.
Qed.

(** C3, on the code.  Whatever the job and the cover probe, the
    dictionary given to [ffmpeg.output] has one ['metadata'] entry, the
    album, and no entry anywhere with the title or the artist: of the
    three items written under the key ['metadata'] in the dictionary
    display only the last is kept. *)
Theorem process_chapter_metadata_album_only (a : chapter_arg) (has_cover : bool) :
  output_args_of a has_cover !! "metadata"
  = Some (VStr ("album=" +:+ get_tag (arg_global_metadata a) "album")) /\
  (forall k, output_args_of a has_cover !! k ≠ Some (VStr ("title=" +:+ arg_chapter_title a))) /\
  (forall k, output_args_of a has_cover !! k
             ≠ Some (VStr ("artist=" +:+ get_tag (arg_global_metadata a) "artist"))).
Proof.
  split; [apply output_args_metadata|].
  split; intros k H; apply output_args_values in H as [H|[H|H]];
    try discriminate H;
    repeat (apply elem_of_cons in H as [H|H]; [discriminate H|]);
    by apply elem_of_nil in H.
Qed.

(** The title a job carries is the raw title of the survivor, without
    the sequence number. *)
Lemma job_of_title (slugify : string -> nat -> string) (input_file output_folder : string)
    (fmt : format) (global_metadata : gmap string string) (sample_rate : Z)
    (width i : nat) (sv : survivor) :
  arg_chapter_title
    (job_of slugify input_file output_folder fmt global_metadata sample_rate width i sv)
  = sv.2.
Proof. by destruct sv as [[[j s] e] t]. Qed.

(** The same at one job: title "Ch1", artist "Ann", album "Book". *)
Example process_chapter_metadata_example :
  let a := ChapterArg "book.m4b" "out/1-ch1.mp3" 0 10 mp3 "Ch1"
             (<["artist" := "Ann"]> (<["album" := "Book"]> ∅)) 44100 in
  call_output_args (extract_call_of Qminus a false) !! "metadata"
  = Some (VStr "album=Book") /\
  call_output_args (extract_call_of Qminus a false)
  = <["q" := VInt 2]> (<["ab" := VStr "128k"]> (<["acodec" := VStr "libmp3lame"]>
      (<["metadata" := VStr "album=Book"]> (<["ar" := VInt 44100]> ∅)))).
Proof.
  split; [by vm_compute|].
  apply map_eq. intros k. cbn [extract_call_of call_output_args].
  unfold output_args_of, cover_args, codec_args, base_output_args. cbn [arg_format].
  rewrite !lookup_insert. repeat case_decide; try done.
Qed.

(** ** Dispatch of the jobs and the summary *)

Lemma count_done_raised (os : list outcome) : count_done os + count_raised os = length os.
Proof.
  unfold count_done, count_raised. induction os as [|o os IH]; [done|].
  rewrite !filter_cons. destruct o; simpl; repeat case_decide; simpl; try done; lia.
Qed.

(** [main] on the branch that dispatches: chapters found, folder
    absent and made, worker count accepted. *)
Lemma main_runs slugify probe_cover ffmpeg_run float_sub can_create
    chapters global_metadata sample_rate input_file output_folder threads deduplicate fmt :
  chapters ≠ [] -> os_makedirs can_create output_folder = None ->
  valid_max_workers threads = true ->
  main slugify probe_cover ffmpeg_run float_sub can_create chapters global_metadata
    sample_rate false input_file output_folder threads deduplicate fmt
  = let jobs := build_jobs slugify input_file output_folder fmt global_metadata sample_rate
                  (dedupe deduplicate chapters) in
    Run (summary deduplicate (length chapters) (length (dedupe deduplicate chapters))
           output_folder)
        true (Some (length chapters))
        (count_done (futures probe_cover ffmpeg_run float_sub jobs)) jobs None.
Proof.
  intros Hne Hdir Hthreads. unfold main. destruct chapters as [|c l]; [done|].
  by rewrite Hdir, Hthreads.
Qed.

(** C4, as the code has it.  When the jobs are dispatched (a chapter
    found, the output folder absent and made by [os.makedirs], the
    worker count accepted), every job built from the survivors is
    submitted and ends with the outcome of its own call of
    [process_chapter], whatever the outcomes of the other jobs; the
    futures that are done and the futures that raised add up to the jobs
    submitted.  No failure is recorded: the run keeps the number of
    progress updates, one per job that succeeded, and its messages and
    its normal end are those of any other engine. *)
Theorem jobs_run_independently
    (slugify : string -> nat -> string)
    (probe_cover : chapter_arg -> option bool) (ffmpeg_run : extract_call -> bool)
    (float_sub : Q -> Q -> Q) (can_create : string -> bool)
    (chapters : list chapter) (global_metadata : gmap string string) (sample_rate : Z)
    (input_file output_folder : string) (threads : option Z)
    (deduplicate : bool) (fmt : format) :
  chapters ≠ [] -> os_makedirs can_create output_folder = None ->
  valid_max_workers threads = true ->
  let jobs := build_jobs slugify input_file output_folder fmt global_metadata sample_rate
                (dedupe deduplicate chapters) in
  let r := main slugify probe_cover ffmpeg_run float_sub can_create chapters
             global_metadata sample_rate false input_file output_folder threads
             deduplicate fmt in
  submitted r = jobs /\
  length (futures probe_cover ffmpeg_run float_sub jobs) = length jobs /\
  (forall i a, jobs !! i = Some a ->
     futures probe_cover ffmpeg_run float_sub jobs !! i
     = Some (process_chapter probe_cover ffmpeg_run float_sub a)) /\
  count_done (futures probe_cover ffmpeg_run float_sub jobs)
    + count_raised (futures probe_cover ffmpeg_run float_sub jobs) = length (submitted r) /\
  bar_updates r = count_done (futures probe_cover ffmpeg_run float_sub jobs) /\
  raised r = None /\
  (forall probe_cover' ffmpeg_run',
     let r' := main slugify probe_cover' ffmpeg_run' float_sub can_create chapters
                 global_metadata sample_rate false input_file output_folder threads
                 deduplicate fmt in
     echoed r' = echoed r /\ raised r' = raised r /\ submitted r' = submitted r).
Proof.
  intros Hne Hdir Hthreads jobs r. subst r. rewrite main_runs by done. cbn zeta.
  cbn [submitted bar_updates raised echoed]. fold jobs.
  split; [done|]. split; [apply length_fmap|]. split; [|split; [|split; [|split]]].
  - intros i a Hi. unfold futures. by rewrite list_lookup_fmap, Hi.
  - rewrite count_done_raised. apply length_fmap.
  - done.
  - done.
  - intros probe_cover' ffmpeg_run'. by rewrite main_runs by done.
Qed.

Lemma jobs_run_independently_witness :
  let chapters := [Chapter 0 1 (Some {["title" := "A"]}); Chapter 1 2 (Some {["title" := "B"]})] in
  let fails_first (c : extract_call) := negb (String.eqb (call_output_file c) "out/1 - A.mp3") in
  let r := main (λ s _, s) (λ _, Some false) fails_first Qminus (λ _, true) chapters ∅ 44100
             false "in.m4b" "out" (Some 2%Z) true mp3 in
  bar_updates r = 1 /\ raised r = None /\ length (submitted r) = 2.
Proof.
  intros chapters fails_first r.
  destruct (jobs_run_independently (λ s _, s) (λ _, Some false) fails_first Qminus
              (λ _, true) chapters ∅ 44100 "in.m4b" "out" (Some 2%Z) true mp3)
    as (Hs & _ & _ & _ & Hb & Hr & _); [done | reflexivity | reflexivity |].
  split; [|split].
  - fold r in Hb. rewrite Hb. by vm_compute.
  - exact Hr.
  - fold r in Hs. rewrite Hs. by vm_compute.
Defined.

(** C4, as the claim has it, fails: what a run leaves does not tell
    which jobs failed.  Two engines that fail different jobs of the same
    batch give the same run, so no report read off a run can be the list
    of the failed jobs. *)
Lemma failures_not_returned :
  let chapters := [Chapter 0 1 (Some {["title" := "A"]}); Chapter 1 2 (Some {["title" := "B"]})] in
  let probe (_ : chapter_arg) := Some false in
  let run_with (ffmpeg_run : extract_call -> bool) :=
    main (λ s _, s) probe ffmpeg_run Qminus (λ _, true) chapters ∅ 44100 false
      "in.m4b" "out" (Some 2%Z) true mp3 in
  ¬ exists report : run -> list chapter_arg,
      forall ffmpeg_run,
        report (run_with ffmpeg_run)
        = failed_jobs probe ffmpeg_run Qminus (submitted (run_with ffmpeg_run)).
Proof.
  intros chapters probe run_with [report Hreport].
  pose (fails_first := λ c : extract_call, negb (String.eqb (call_output_file c) "out/1 - A.mp3")).
  pose (fails_second := λ c : extract_call, negb (String.eqb (call_output_file c) "out/2 - B.mp3")).
  pose proof (Hreport fails_first) as H1.
  pose proof (Hreport fails_second) as H2.
  assert (run_with fails_first = run_with fails_second) as Heq by (by vm_compute).
  rewrite Heq in H1. rewrite H1 in H2.
  apply (f_equal (fmap arg_chapter_title)) in H2.
  vm_compute in H2. discriminate H2.
Qed.

(** C10, as the code has it.  When a chapter is found, the output
    folder does not exist yet, [os.makedirs] makes it (which it cannot
    for the empty path) and the worker count is accepted, [main] ends
    normally and its messages are, first, "Successfully processed N
    chapters." with N the number of chapters of the probe, then the line
    about the survivors.  Neither the messages nor the end depend on the
    engine: they are the same when every job succeeds and when every job
    fails. *)
Theorem main_summary
    (slugify : string -> nat -> string)
    (probe_cover : chapter_arg -> option bool) (ffmpeg_run : extract_call -> bool)
    (float_sub : Q -> Q -> Q) (can_create : string -> bool)
    (chapters : list chapter) (global_metadata : gmap string string) (sample_rate : Z)
    (input_file output_folder : string) (threads : option Z)
    (deduplicate : bool) (fmt : format) :
  chapters ≠ [] -> os_makedirs can_create output_folder = None ->
  valid_max_workers threads = true ->
  let r := main slugify probe_cover ffmpeg_run float_sub can_create chapters
             global_metadata sample_rate false input_file output_folder threads
             deduplicate fmt in
  raised r = None /\
  echoed r !! 0
    = Some ("Successfully processed " +:+ str_of_nat (length chapters) +:+ " chapters.") /\
  echoed r = summary deduplicate (length chapters) (length (dedupe deduplicate chapters))
               output_folder /\
  Fmt.value (list_ascii_of_string (str_of_nat (length chapters))) = length chapters /\
  echoed (main slugify (λ _, Some false) (λ _, true) float_sub can_create chapters
            global_metadata sample_rate false input_file output_folder threads
            deduplicate fmt) = echoed r /\
  echoed (main slugify (λ _, None) (λ _, false) float_sub can_create chapters
            global_metadata sample_rate false input_file output_folder threads
            deduplicate fmt) = echoed r /\
  (forall probe_cover' ffmpeg_run',
     let r' := main slugify probe_cover' ffmpeg_run' float_sub can_create chapters
                 global_metadata sample_rate false input_file output_folder threads
                 deduplicate fmt in
     echoed r' = echoed r /\ raised r' = None).
Proof.
  intros Hne Hdir Hthreads r. subst r. rewrite !main_runs by done. cbn zeta.
  cbn [raised echoed]. repeat split; try done.
  - unfold str_of_nat. rewrite list_ascii_of_string_of_list_ascii.
    apply FmtFacts.dec_value.
  - by rewrite main_runs by done.
  - by rewrite main_runs by done.
Qed.

Lemma main_summary_witness :
  let chapters := [Chapter 0 1 (Some {["title" := "A"]}); Chapter 1 2 (Some {["title" := "A (again)"]})] in
  echoed (main (λ s _, s) (λ _, None) (λ _, false) Qminus (λ _, true) chapters ∅ 44100
            false "in.m4b" "out" (Some 2%Z) true mp3) !! 0
  = Some "Successfully processed 2 chapters.".
Proof.
  intros chapters.
  apply (main_summary (λ s _, s) (λ _, None) (λ _, false) Qminus (λ _, true) chapters ∅ 44100
           "in.m4b" "out" (Some 2%Z) true mp3); [done | reflexivity | reflexivity].
Defined.

(** C10, as the claim has it, fails: with a chapter found and no
    output folder in the way, [--threads 0] makes the executor raise
    [ValueError] and [main] prints no summary; and so does an output
    folder that [os.makedirs] cannot make, such as the empty path. *)
Lemma main_zero_threads_no_summary :
  let r := main (λ s _, s) (λ _, Some false) (λ _, true) Qminus (λ _, true)
             [Chapter 0 1 (Some {["title" := "A"]})] ∅ 44100 false
             "in.m4b" "out" (Some 0%Z) true mp3 in
  let r' := main (λ s _, s) (λ _, Some false) (λ _, true) Qminus (λ _, true)
              [Chapter 0 1 (Some {["title" := "A"]})] ∅ 44100 false
              "in.m4b" "" (Some 4%Z) true mp3 in
  (raised r = Some "ValueError: max_workers must be greater than 0" /\
   echoed r = [] /\ submitted r = []) /\
  (raised r' = Some "FileNotFoundError" /\ echoed r' = [] /\ submitted r' = [] /\
   folder_created r' = false /\ bar_total r' = None).
Proof. by vm_compute. Qed.

(** * Further properties of the code *)

(** ** More on the title normalizer *)

Module TextMore.
Import Text TextFacts.

Lemma skip_spaces_idemp s : skip_spaces (skip_spaces s) = skip_spaces s.
Proof.
  induction s as [|c s IH]; simpl; [done|].
  destruct (is_space c) eqn:Hc; [done|]. simpl. by rewrite Hc.
Qed.

Lemma rstrip_idemp s : rstrip (rstrip s) = rstrip s.
Proof. unfold rstrip. by rewrite rev_involutive, skip_spaces_idemp. Qed.

Lemma skip_spaces_rstrip s : skip_spaces (rstrip s) = rstrip (skip_spaces s).
Proof.
  induction s as [|c s IH]; [done|].
  destruct (decide (spaces (c :: s))) as [Hs|Hs].
  - rewrite rstrip_spaces by done.
    apply skip_spaces_nil in Hs. by rewrite Hs.
  - rewrite rstrip_cons by done. simpl.
    destruct (is_space c) eqn:Hc; [done|]. by rewrite rstrip_cons.
Qed.

Lemma strip_rstrip s : strip s = rstrip (skip_spaces s).
Proof. done. Qed.

Lemma strip_idemp s : strip (strip s) = strip s.
Proof.
  rewrite !strip_rstrip, skip_spaces_rstrip, skip_spaces_idemp. apply rstrip_idemp.
Qed.

Lemma strip_of_rstrip s : strip (rstrip s) = strip s.
Proof. rewrite !strip_rstrip, skip_spaces_rstrip. apply rstrip_idemp. Qed.

(** A span at the end of a text without other opening parentheses
    goes with the whitespace before it. *)
Lemma clean_suffix t ws x :
  lparen ∉ t -> spaces ws -> rparen ∉ x ->
  strip (re_sub (t ++ ws ++ lparen :: x ++ [rparen])) = strip (re_sub t).
Proof.
  intros Ht Hws Hx. rewrite re_sub_span by done.
  rewrite re_sub_nil, app_nil_r, strip_of_rstrip.
  by rewrite re_sub_no_lparen.
Qed.

End TextMore.

Lemma chars_suffixed (t ws x : string) :
  list_ascii_of_string (t +:+ ws +:+ "(" +:+ x +:+ ")")
  = list_ascii_of_string t ++ list_ascii_of_string ws
    ++ Text.lparen :: list_ascii_of_string x ++ [Text.rparen].
Proof. repeat (rewrite chars_append; simpl). done. Qed.

(** X1.  Normalizing a normalized title changes nothing. *)
Theorem clean_chapter_title_idempotent (title : string) :
  clean_chapter_title (clean_chapter_title title) = clean_chapter_title title.
Proof.
  apply chars_inj. rewrite chars_clean. rewrite chars_clean.
  rewrite TextFacts.re_sub_no_span_id.
  - apply TextMore.strip_idemp.
  - intros H. apply (TextFacts.re_sub_no_span (list_ascii_of_string title)).
    by apply (TextFacts.has_span_sublist _ _ (TextFacts.strip_sublist _)).
Qed.

(** X2.  A title in which no opening parenthesis has a closing one
    after it is only stripped: an opening parenthesis that is never
    closed stays in the normalized title, and so does a closing one
    that was never opened. *)
Theorem clean_keeps_unmatched_parentheses (title : string) :
  ¬ Text.has_span (list_ascii_of_string title) ->
  clean_chapter_title title = str_strip title.
Proof.
  intros Hn. unfold clean_chapter_title. f_equal.
  apply chars_inj. unfold re_sub_paren. rewrite chars_on_text.
  by apply TextFacts.re_sub_no_span_id.
Qed.

Lemma clean_keeps_unmatched_parentheses_witness :
  clean_chapter_title " Part 2) of (3 " = "Part 2) of (3".
Proof.
  rewrite (clean_keeps_unmatched_parentheses " Part 2) of (3 ").
  - reflexivity.
  - by apply TextFacts.has_spanb_false.
Defined.

(** X3.  A parenthesized remark at the end of a title, with the
    whitespace before it, does not count: the title with the remark has
    the normalized title of the title without it (for a title that has
    no opening parenthesis itself). *)
Theorem clean_ignores_parenthetical_suffix (t ws x : string) :
  Text.lparen ∉ list_ascii_of_string t ->
  Text.spaces (list_ascii_of_string ws) ->
  Text.rparen ∉ list_ascii_of_string x ->
  clean_chapter_title (t +:+ ws +:+ "(" +:+ x +:+ ")") = clean_chapter_title t.
Proof.
  intros Ht Hws Hx. apply chars_inj.
  rewrite !chars_clean, chars_suffixed.
  by apply TextMore.clean_suffix.
Qed.

Lemma clean_ignores_parenthetical_suffix_witness :
  clean_chapter_title ("Ch1" +:+ "  " +:+ "(" +:+ "alt (take" +:+ ")") = clean_chapter_title "Ch1".
Proof.
  apply clean_ignores_parenthetical_suffix.
  - apply (bool_decide_unpack _). vm_compute. exact I.
  - apply (bool_decide_unpack _). vm_compute. exact I.
  - apply (bool_decide_unpack _). vm_compute. exact I.
Defined.

(** ** More on the deduplication loop *)

(** X4.  With deduplication on, a chapter whose title is the title of
    an earlier chapter followed by a parenthesized remark is dropped
    (the earlier title having no opening parenthesis). *)
Theorem dedupe_drops_parenthetical_variant (chapters : list chapter)
    (j i : nat) (chj chi : chapter) (ws x : string) :
  j < i -> chapters !! j = Some chj -> chapters !! i = Some chi ->
  Text.lparen ∉ list_ascii_of_string (chapter_title j chj) ->
  Text.spaces (list_ascii_of_string ws) ->
  Text.rparen ∉ list_ascii_of_string x ->
  chapter_title i chi = chapter_title j chj +:+ ws +:+ "(" +:+ x +:+ ")" ->
  survivor_of i chi ∉ dedupe true chapters.
Proof.
  intros Hji Hj Hi Ht Hws Hx Htitle Hin.
  apply (inv_first _ _ (DedupFacts.dedup_inv_loop chapters) i chi Hi) in Hin as [_ Hfirst].
  apply (Hfirst j chj Hji Hj). apply chars_inj.
  rewrite Htitle, !chars_clean, chars_suffixed.
  symmetry. by apply TextMore.clean_suffix.
Qed.

Lemma dedupe_drops_parenthetical_variant_witness :
  survivor_of 2 (Chapter 2 3 (Some {["title" := "Ch1 (alt take)"]}))
  ∉ dedupe true [Chapter 0 1 (Some {["title" := "Intro"]});
                 Chapter 1 2 (Some {["title" := "Ch1"]});
                 Chapter 2 3 (Some {["title" := "Ch1 (alt take)"]})].
Proof.
  apply (dedupe_drops_parenthetical_variant _ 1 2
           (Chapter 1 2 (Some {["title" := "Ch1"]}))
           (Chapter 2 3 (Some {["title" := "Ch1 (alt take)"]})) " " "alt take").
  - lia.
  - reflexivity.
  - reflexivity.
  - apply (bool_decide_unpack _). vm_compute. exact I.
  - apply (bool_decide_unpack _). vm_compute. exact I.
  - apply (bool_decide_unpack _). vm_compute. exact I.
  - reflexivity.
Defined.

Lemma clean_titles_from_cons i ch chapters :
  clean_titles_from i (ch :: chapters)
  = clean_chapter_title (chapter_title i ch) :: clean_titles_from (S i) chapters.
Proof.
  unfold clean_titles_from. rewrite imap_cons, Nat.add_0_r. f_equal.
  apply imap_ext. intros j x _. simpl. by rewrite Nat.add_succ_r.
Qed.

Lemma elem_of_clean_titles chapters k :
  k ∈ clean_titles chapters <->
  exists i ch, chapters !! i = Some ch /\ clean_chapter_title (chapter_title i ch) = k.
Proof.
  unfold clean_titles, clean_titles_from. rewrite elem_of_lookup_imap. split.
  - intros (i & ch & -> & Hi). by exists i, ch.
  - intros (i & ch & Hi & <-). by exists i, ch.
Qed.

Lemma clean_titles_lookup chapters i ch :
  chapters !! i = Some ch ->
  clean_titles chapters !! i = Some (clean_chapter_title (chapter_title i ch)).
Proof.
  intros Hi. unfold clean_titles, clean_titles_from.
  by rewrite list_lookup_imap, Hi.
Qed.

(** Chapters whose normalized titles are distinct, not empty and not
    yet seen are all kept. *)
Lemma dedup_loop_all_kept chapters i st :
  NoDup (clean_titles_from i chapters) ->
  "" ∉ clean_titles_from i chapters ->
  (forall k, k ∈ clean_titles_from i chapters -> k ∉ processed_titles st) ->
  deduped_chapters (dedup_loop true i chapters st)
  = deduped_chapters st ++ imap (λ j, survivor_of (i + j)) chapters.
Proof.
  revert i st. induction chapters as [|ch chapters IH]; intros i st Hnd Hne Hfresh.
  - simpl. by rewrite app_nil_r.
  - rewrite clean_titles_from_cons in Hnd, Hne, Hfresh.
    apply NoDup_cons in Hnd as [Hch Hnd].
    apply not_elem_of_cons in Hne as [Hne1 Hne].
    cbn [dedup_loop]. rewrite DedupFacts.dedup_body_true.
    destruct (decide _) as [_|Hn].
    + rewrite IH; [| done | done |]; simpl.
      * rewrite <- app_assoc, Nat.add_0_r. simpl.
        do 2 f_equal. apply imap_ext. intros j x _. simpl. f_equal. lia.
      * intros k Hk [->%elem_of_singleton|Hin]%elem_of_union; [done|].
        apply (Hfresh k); [|done]. by apply list_elem_of_further.
    + destruct Hn. split; [done|]. apply Hfresh, list_elem_of_here.
Qed.

(** X5.  With deduplication on, the number of survivors is the number
    of distinct non-empty normalized titles among the chapters; it is at
    most the number of chapters. *)
Theorem dedupe_counts_distinct_titles (chapters : list chapter) :
  length (dedupe true chapters) = size (title_keys chapters) /\
  length (dedupe true chapters) <= length chapters.
Proof.
  pose proof (DedupFacts.dedup_inv_loop chapters) as Hinv. split.
  - assert (title_keys chapters
            = list_to_set (clean_of <$> dedupe true chapters)) as ->.
    { apply set_eq. intros k. unfold title_keys.
      rewrite !elem_of_list_to_set, list_elem_of_filter, elem_of_clean_titles.
      unfold dedupe. rewrite <- (inv_seen _ _ Hinv k). symmetry.
      apply (inv_all _ _ Hinv k). }
    rewrite size_list_to_set by apply (inv_nodup _ _ Hinv).
    by rewrite length_fmap.
  - rewrite <- (length_imap survivor_of chapters).
    apply sublist_length, (inv_sub _ _ Hinv).
Qed.

(** X6.  Deduplication drops nothing exactly when the normalized
    titles of the chapters are pairwise distinct and none is empty. *)
Theorem dedupe_keeps_all_iff_distinct (chapters : list chapter) :
  dedupe true chapters = dedupe false chapters <->
  NoDup (clean_titles chapters) /\ "" ∉ clean_titles chapters.
Proof.
  rewrite dedupe_false_all. split.
  - intros Heq.
    assert (forall i ch, chapters !! i = Some ch ->
              clean_chapter_title (chapter_title i ch) ≠ "" /\
              forall j chj, j < i -> chapters !! j = Some chj ->
                clean_chapter_title (chapter_title j chj)
                ≠ clean_chapter_title (chapter_title i ch)) as Hall.
    { intros i ch Hi.
      apply (inv_first _ _ (DedupFacts.dedup_inv_loop chapters) i ch Hi).
      fold (dedupe true chapters). rewrite Heq.
      by apply DedupFacts.elem_of_survivors; exists i, ch. }
    split.
    + apply NoDup_alt. intros i j k Hi Hj.
      apply list_lookup_imap_Some in Hi as (chi & Hi & Hki).
      apply list_lookup_imap_Some in Hj as (chj & Hj & Hkj).
      simpl in Hki, Hkj.
      destruct (Nat.lt_trichotomy i j) as [Hlt|[Heq'|Hgt]]; [|done|].
      * destruct (proj2 (Hall j chj Hj) i chi Hlt Hi). congruence.
      * destruct (proj2 (Hall i chi Hi) j chj Hgt Hj). congruence.
    + intros (i & ch & Hi & Hk)%elem_of_clean_titles.
      by destruct (proj1 (Hall i ch Hi)).
  - intros [Hnd Hne]. unfold dedupe. rewrite dedup_loop_all_kept; [done..|].
    intros k _. apply not_elem_of_empty.
Qed.

Lemma dedupe_keeps_all_iff_distinct_witness :
  dedupe true [Chapter 0 1 (Some {["title" := "A (x)"]}); Chapter 1 2 (Some {["title" := "B"]})]
  = dedupe false [Chapter 0 1 (Some {["title" := "A (x)"]}); Chapter 1 2 (Some {["title" := "B"]})].
Proof.
  apply dedupe_keeps_all_iff_distinct. split.
  - apply (bool_decide_unpack _). vm_compute. exact I.
  - apply (bool_decide_unpack _). vm_compute. exact I.
Defined.

Lemma fallback_title_inj i j : fallback_title i = fallback_title j -> i = j.
Proof.
  intros H. apply (f_equal list_ascii_of_string) in H.
  rewrite !chars_fallback_title in H. apply app_inv_head in H.
  apply (f_equal Fmt.value) in H. rewrite !FmtFacts.zpad_value in H. lia.
Qed.

Lemma fallback_title_nonempty i : fallback_title i ≠ "".
Proof. done. Qed.

Lemma untitled_clean_titles chapters :
  Forall (λ ch, default (∅ : gmap string string) (tags ch) !! "title" = None) chapters ->
  clean_titles chapters = imap (λ i _, fallback_title i) chapters.
Proof.
  intros Hall. unfold clean_titles, clean_titles_from. apply imap_ext.
  intros i ch Hi. simpl.
  rewrite Forall_forall in Hall.
  assert (chapter_title i ch = fallback_title i) as ->.
  { unfold chapter_title. rewrite Hall; [done|]. apply list_elem_of_lookup. eauto. }
  apply clean_fallback_title.
Qed.

(** X7.  When no chapter has a title tag, deduplication drops nothing:
    the fallback titles are their own normalized titles, not empty and
    different for different indices, so chapter [i] survives under the
    title "Chapter_" and [i + 1] padded to three digits. *)
Theorem dedupe_keeps_untitled_chapters (chapters : list chapter) :
  Forall (λ ch, default (∅ : gmap string string) (tags ch) !! "title" = None) chapters ->
  dedupe true chapters = dedupe false chapters /\
  forall i ch, chapters !! i = Some ch ->
    dedupe true chapters !! i
    = Some (i, start_time ch, end_time ch, "Chapter_" +:+ format_0d 3 (i + 1)).
Proof.
  intros Hall.
  assert (dedupe true chapters = imap survivor_of chapters) as Heq.
  { unfold dedupe. rewrite dedup_loop_all_kept; [done | | |].
    - fold (clean_titles chapters). rewrite untitled_clean_titles by done.
      apply NoDup_alt. intros i j k Hi Hj.
      apply list_lookup_imap_Some in Hi as (chi & Hi & Hki).
      apply list_lookup_imap_Some in Hj as (chj & Hj & Hkj).
      apply fallback_title_inj. congruence.
    - fold (clean_titles chapters). rewrite untitled_clean_titles by done.
      intros (i & ch & Hk & _)%elem_of_lookup_imap.
      by apply (fallback_title_nonempty i).
    - intros k _. apply not_elem_of_empty. }
  split; [by rewrite dedupe_false_all|].
  intros i ch Hi. rewrite Heq, list_lookup_imap, Hi. simpl.
  unfold survivor_of, chapter_title.
  rewrite Forall_forall in Hall. rewrite Hall; [done|].
  apply list_elem_of_lookup. eauto.
Qed.

Lemma dedupe_keeps_untitled_chapters_witness :
  dedupe true [Chapter 0 1 None; Chapter 1 2 (Some ∅)] !! 1
  = Some (1, 1%Q, 2%Q, "Chapter_" +:+ format_0d 3 (1 + 1)).
Proof.
  assert (Forall (λ ch, default (∅ : gmap string string) (tags ch) !! "title" = None)
            [Chapter 0 1 None; Chapter 1 2 (Some ∅)]) as Hall by (by repeat constructor).
  apply (proj2 (dedupe_keeps_untitled_chapters _ Hall) 1 (Chapter 1 2 (Some ∅))).
  reflexivity.
Defined.

(** ** The probe *)

Lemma filter_audio_none (streams : list stream) :
  Forall (λ s, codec_type s ≠ "audio") streams ->
  filter (λ s, codec_type s = "audio") streams = [].
Proof.
  induction 1 as [|s streams Hs _ IH]; [done|].
  by rewrite filter_cons_False.
Qed.

(** X8.  [get_file_info] takes the sample rate of the first audio
    stream of the probe, whatever streams of other kinds come before it
    and whatever streams follow: its ['sample_rate'] when it has one,
    44100 otherwise.  Without any audio stream, or without the key
    ['streams'], the rate is 44100. *)
Theorem get_file_info_sample_rate (p : probe) :
  (forall before a after,
     probe_streams p = Some (before ++ a :: after) ->
     Forall (λ s, codec_type s ≠ "audio") before ->
     codec_type a = "audio" ->
     (get_file_info p).2 = default 44100%Z (stream_sample_rate a)) /\
  (Forall (λ s, codec_type s ≠ "audio") (default [] (probe_streams p)) ->
   (get_file_info p).2 = 44100%Z).
Proof.
  unfold get_file_info. simpl. split.
  - intros before a after -> Hbefore Ha. simpl.
    rewrite filter_app, filter_audio_none by done.
    by rewrite filter_cons_True.
  - intros Hnone. by rewrite filter_audio_none.
Qed.

Lemma get_file_info_sample_rate_witness :
  (get_file_info
     (Probe (Some []) None
        (Some [Stream "video" None; Stream "audio" (Some 22050%Z);
               Stream "audio" (Some 48000%Z)]))).2 = 22050%Z /\
  (get_file_info (Probe None None (Some [Stream "video" None]))).2 = 44100%Z.
Proof.
  split.
  - apply (proj1 (get_file_info_sample_rate _) [Stream "video" None]
             (Stream "audio" (Some 22050%Z)) [Stream "audio" (Some 48000%Z)]).
    + reflexivity.
    + by repeat constructor.
    + reflexivity.
  - apply (proj2 (get_file_info_sample_rate _)). by repeat constructor.
Defined.

(** ** Sequence numbers and output files *)

Module NumberFacts.
Import Fmt FmtFacts.

Lemma foldl_value a ds :
  foldl (λ a c, 10 * a + (nat_of_ascii c - 48)) a ds = a * 10 ^ length ds + value ds.
Proof.
  unfold value. revert a. induction ds as [|c ds IH]; intros a.
  - cbn [foldl length]. rewrite Nat.pow_0_r. lia.
  - cbn [foldl length]. rewrite IH, (IH (10 * 0 + _)), Nat.pow_succ_r'. lia.
Qed.

Lemma value_cons c ds : value (c :: ds) = (nat_of_ascii c - 48) * 10 ^ length ds + value ds.
Proof.
  unfold value at 1. cbn [foldl]. rewrite foldl_value. lia.
Qed.

Lemma value_bound ds : Forall is_digit ds -> value ds < 10 ^ length ds.
Proof.
  induction 1 as [|c ds (d & Hd & ->) _ IH]; [cbn; lia|].
  rewrite value_cons, digit_value by done. cbn [length].
  rewrite Nat.pow_succ_r'. nia.
Qed.

Lemma nat_of_digit d : d < 10 -> nat_of_ascii (digit d) = 48 + d.
Proof. intros H. do 10 (destruct d as [|d]; [done|]). lia. Qed.

(** Among digit strings of one length the order of the strings is the
    order of the numbers, whatever follows the digits. *)
Lemma lex_ltb_digits ds1 ds2 r1 r2 :
  Forall is_digit ds1 -> Forall is_digit ds2 -> length ds1 = length ds2 ->
  value ds1 < value ds2 -> lex_ltb (ds1 ++ r1) (ds2 ++ r2) = true.
Proof.
  intros H1. revert ds2. induction H1 as [|c1 ds1 (d1 & Hd1 & ->) Hds1 IH];
    intros ds2 H2 Hlen Hlt.
  - destruct ds2; [cbn in Hlt; lia | done].
  - destruct H2 as [|c2 ds2 (d2 & Hd2 & ->) Hds2]; [done|].
    cbn [length] in Hlen. injection Hlen as Hlen.
    rewrite !value_cons, !digit_value in Hlt by done.
    pose proof (value_bound ds1 Hds1) as Hb1.
    pose proof (value_bound ds2 Hds2) as Hb2.
    rewrite Hlen in Hlt, Hb1.
    cbn [app lex_ltb]. rewrite !nat_of_digit by done.
    destruct (Nat.lt_trichotomy d1 d2) as [Hd|[->|Hd]].
    + assert ((48 + d1 <? 48 + d2) = true) as -> by (apply Nat.ltb_lt; lia). done.
    + rewrite Nat.eqb_refl, IH; [apply orb_true_r | done | done | lia].
    + exfalso. nia.
Qed.

End NumberFacts.

Lemma chars_numbered_title w i title :
  list_ascii_of_string (numbered_title w i title)
  = Fmt.zpad w (i + 1) ++ list_ascii_of_string (" - " +:+ title).
Proof.
  unfold numbered_title, format_0d.
  by rewrite chars_append, list_ascii_of_string_of_list_ascii.
Qed.

(** X9.  The numbered titles of a batch sort in the order of the
    chapters: of two positions [i < j] of the batch the numbered title of
    [i] comes before the numbered title of [j] in the order of strings,
    whatever the two titles are. *)
Theorem numbered_titles_sorted (deduped : list survivor) (i j : nat) (ti tj : string) :
  i < j -> j < length deduped ->
  str_lt (numbered_title (num_digits deduped) i ti)
         (numbered_title (num_digits deduped) j tj).
Proof.
  intros Hij Hj.
  assert (deduped ≠ []) as Hne by (intros ->; simpl in Hj; lia).
  destruct (num_digits_bounds deduped Hne) as (Hw & _ & Hup).
  unfold str_lt. rewrite !chars_numbered_title.
  apply NumberFacts.lex_ltb_digits.
  - apply FmtFacts.zpad_digits.
  - apply FmtFacts.zpad_digits.
  - rewrite !FmtFacts.zpad_length.
    pose proof (FmtFacts.dec_length (i + 1) (num_digits deduped) Hw).
    pose proof (FmtFacts.dec_length (j + 1) (num_digits deduped) Hw). lia.
  - rewrite !FmtFacts.zpad_value. lia.
Qed.

Lemma numbered_titles_sorted_witness :
  str_lt (numbered_title (num_digits (replicate 12 (0, 0%Q, 1%Q, "Ch"))) 8 "Zebra")
         (numbered_title (num_digits (replicate 12 (0, 0%Q, 1%Q, "Ch"))) 9 "Aardvark").
Proof.
  apply numbered_titles_sorted; simpl; lia.
Defined.

Lemma chars_nil_inv (a : string) : list_ascii_of_string a = [] -> a = "".
Proof. by destruct a. Qed.

(** When [b] does not start with a slash, [os.path.join(a, b)] is [a],
    the separator and [b]; when it does, it is [b]. *)
Lemma path_join_relative (a b : string) :
  (forall r, b ≠ String "/" r) -> path_join a b = a +:+ join_separator a +:+ b.
Proof.
  intros Hb. unfold path_join, join_separator.
  assert (match b with
          | String "/"%char _ => b
          | _ => match rev (list_ascii_of_string a) with
                 | [] => b
                 | "/"%char :: _ => a +:+ b
                 | _ => a +:+ "/" +:+ b
                 end
          end
          = match rev (list_ascii_of_string a) with
            | [] => b
            | "/"%char :: _ => a +:+ b
            | _ => a +:+ "/" +:+ b
            end) as ->.
  { destruct b as [|c b]; [done|].
    destruct (decide (c = "/"%char)) as [->|Hc]; [by destruct (Hb b)|].
    destruct c as [[] [] [] [] [] [] [] []]; done. }
  destruct (rev (list_ascii_of_string a)) as [|d l] eqn:Ha.
  - apply (f_equal (@rev ascii)) in Ha. rewrite rev_involutive in Ha.
    by rewrite (chars_nil_inv a Ha).
  - destruct (decide (d = "/"%char)) as [->|Hd]; [done|].
    destruct d as [[] [] [] [] [] [] [] []]; done.
Qed.

Lemma path_join_absolute (a b r : string) : b = String "/" r -> path_join a b = b.
Proof. by intros ->. Qed.

Lemma join_separator_none (a : string) :
  a = "" \/ (exists p, a = p +:+ "/") -> join_separator a = "".
Proof.
  unfold join_separator. intros [->|[p ->]]; [done|].
  by rewrite chars_append, rev_app_distr.
Qed.

Lemma join_separator_slash (a : string) :
  a ≠ "" -> (forall p, a ≠ p +:+ "/") -> join_separator a = "/".
Proof.
  unfold join_separator. intros Hne Hp.
  destruct (rev (list_ascii_of_string a)) as [|d l] eqn:Ha.
  - apply (f_equal (@rev ascii)) in Ha. rewrite rev_involutive in Ha.
    by destruct Hne, (chars_nil_inv a Ha).
  - destruct (decide (d = "/"%char)) as [->|Hd].
    + destruct (Hp (string_of_list_ascii (rev l))). apply chars_inj.
      rewrite chars_append, list_ascii_of_string_of_list_ascii.
      apply (f_equal (@rev ascii)) in Ha. by rewrite rev_involutive in Ha.
    + destruct d as [[] [] [] [] [] [] [] []]; done.
Qed.

Lemma append_assoc (a b c : string) : (a +:+ b) +:+ c = a +:+ b +:+ c.
Proof. apply chars_inj. by rewrite !chars_append, app_assoc. Qed.

(** X10.  The output file of a job is named by the slug of its
    numbered title followed by a dot and the name of the format.  When
    the slug does not start with a slash, the path is the output folder,
    the separator and that name, where the separator is empty exactly
    when the folder is empty or ends with a slash, and a slash
    otherwise.  When the slug starts with a slash the folder is left
    out: the path is the name alone. *)
Theorem output_file_in_folder
    (slugify : string -> nat -> string) (input_file output_folder : string)
    (fmt : format) (global_metadata : gmap string string) (sample_rate : Z)
    (width i : nat) (sv : survivor) :
  let name := slugify (numbered_title width i sv.2) 100 +:+ "." +:+ format_name fmt in
  let job := job_of slugify input_file output_folder fmt global_metadata sample_rate
               width i sv in
  ((forall r, slugify (numbered_title width i sv.2) 100 ≠ String "/" r) ->
   arg_output_file job = output_folder +:+ join_separator output_folder +:+ name) /\
  ((exists r, slugify (numbered_title width i sv.2) 100 = String "/" r) ->
   arg_output_file job = name) /\
  (output_folder = "" \/ (exists p, output_folder = p +:+ "/") ->
   join_separator output_folder = "") /\
  (output_folder ≠ "" -> (forall p, output_folder ≠ p +:+ "/") ->
   join_separator output_folder = "/").
Proof.
  destruct sv as [[[k s] e] t]. cbn zeta. cbn [job_of arg_output_file snd].
  fold (numbered_title width i t).
  set (slug := slugify (numbered_title width i t) 100).
  split; [|split; [|split]].
  - intros Hslug. apply path_join_relative.
    intros r Hr. destruct slug as [|c slug']; [by destruct fmt|].
    simpl in Hr. injection Hr as -> _. by apply (Hslug slug').
  - intros [r Hr]. rewrite Hr. by apply (path_join_absolute _ _ (r +:+ "." +:+ format_name fmt)).
  - apply join_separator_none.
  - apply join_separator_slash.
Qed.

Lemma output_file_in_folder_witness :
  arg_output_file (job_of (λ s _, s) "in.m4b" "out" mp3 ∅ 44100 2 0 (0, 0%Q, 1%Q, "Intro"))
  = "out/01 - Intro.mp3" /\
  arg_output_file (job_of (λ s _, s) "in.m4b" "out/" mp3 ∅ 44100 2 0 (0, 0%Q, 1%Q, "Intro"))
  = "out/01 - Intro.mp3".
Proof.
  split.
  - rewrite (proj1 (output_file_in_folder (λ s _, s) "in.m4b" "out" mp3 ∅ 44100 2 0
                      (0, 0%Q, 1%Q, "Intro"))); [|intros r; by vm_compute].
    rewrite (proj2 (proj2 (proj2 (output_file_in_folder (λ s _, s) "in.m4b" "out" mp3 ∅
                                    44100 2 0 (0, 0%Q, 1%Q, "Intro")))));
      [reflexivity | done | intros p Hp].
    apply (f_equal list_ascii_of_string) in Hp. rewrite chars_append in Hp.
    apply (f_equal (@rev ascii)) in Hp. rewrite rev_app_distr in Hp. discriminate Hp.
  - rewrite (proj1 (output_file_in_folder (λ s _, s) "in.m4b" "out/" mp3 ∅ 44100 2 0
                      (0, 0%Q, 1%Q, "Intro"))); [|intros r; by vm_compute].
    rewrite (proj1 (proj2 (proj2 (output_file_in_folder (λ s _, s) "in.m4b" "out/" mp3 ∅
                                    44100 2 0 (0, 0%Q, 1%Q, "Intro")))));
      [reflexivity | right; by exists "out"].
Defined.

(** ** The call of the engine *)

(** X11.  The keyword dictionary of a job always carries the sample
    rate under ['ar'] and an audio codec under ['acodec'], and the
    updates for the format and for the cover do not touch them: mp3 gets
    libmp3lame with ['ab'] 128k and ['q'] 2, m4a and m4b get aac with
    ['b:a'] 128k, wav gets pcm_s16le and no bitrate; no format gets both
    ['ab'] and ['b:a']; ['c:v'] is ['copy'] exactly when the probe showed
    a cover. *)
Theorem output_args_codec_policy (a : chapter_arg) (has_cover : bool) :
  output_args_of a has_cover !! "ar" = Some (VInt (arg_sample_rate a)) /\
  output_args_of a has_cover !! "c:v" = (if has_cover then Some (VStr "copy") else None) /\
  output_args_of a has_cover !! "acodec"
  = Some (VStr match arg_format a with
               | mp3 => "libmp3lame" | m4a | m4b => "aac" | wav => "pcm_s16le"
               end) /\
  output_args_of a has_cover !! "ab"
  = match arg_format a with mp3 => Some (VStr "128k") | _ => None end /\
  output_args_of a has_cover !! "q"
  = match arg_format a with mp3 => Some (VInt 2) | _ => None end /\
  output_args_of a has_cover !! "b:a"
  = match arg_format a with m4a | m4b => Some (VStr "128k") | _ => None end /\
  dom (output_args_of a has_cover)
  = {["ar"; "metadata"; "acodec"]}
    ∪ match arg_format a with
      | mp3 => {["ab"; "q"]} | m4a | m4b => {["b:a"]} | wav => ∅
      end
    ∪ (if has_cover then {["c:v"]} else ∅).
Proof.
  unfold output_args_of, cover_args, codec_args, base_output_args.
  destruct has_cover, (arg_format a);
    repeat split; try (by simplify_map_eq);
    rewrite !dom_insert_L, dom_empty_L; set_solver.
Qed.

(** ** The jobs of a run *)

(** X12.  In a run that dispatches, there is one job per survivor, in
    the order of the survivors, and the job at position [k] cuts its own
    chapter: it belongs to a chapter [i] of the probe, starts at the
    start of that chapter, lasts the float difference of its end and its
    start, carries its title, and has the input file, the format, the
    sample rate and the global tags of the run. *)
Theorem jobs_cut_their_chapters
    (slugify : string -> nat -> string)
    (probe_cover : chapter_arg -> option bool) (ffmpeg_run : extract_call -> bool)
    (float_sub : Q -> Q -> Q) (can_create : string -> bool)
    (chapters : list chapter) (global_metadata : gmap string string) (sample_rate : Z)
    (input_file output_folder : string) (threads : option Z)
    (deduplicate : bool) (fmt : format) :
  chapters ≠ [] -> os_makedirs can_create output_folder = None ->
  valid_max_workers threads = true ->
  let r := main slugify probe_cover ffmpeg_run float_sub can_create chapters
             global_metadata sample_rate false input_file output_folder threads
             deduplicate fmt in
  length (submitted r) = length (dedupe deduplicate chapters) /\
  forall k a, submitted r !! k = Some a ->
    exists i ch,
      chapters !! i = Some ch /\
      dedupe deduplicate chapters !! k = Some (survivor_of i ch) /\
      arg_input_file a = input_file /\ arg_format a = fmt /\
      arg_sample_rate a = sample_rate /\ arg_global_metadata a = global_metadata /\
      arg_chapter_title a = chapter_title i ch /\
      forall has_cover,
        call_input_file (extract_call_of float_sub a has_cover) = input_file /\
        call_ss (extract_call_of float_sub a has_cover) = start_time ch /\
        call_t (extract_call_of float_sub a has_cover)
        = float_sub (end_time ch) (start_time ch) /\
        call_output_file (extract_call_of float_sub a has_cover) = arg_output_file a.
Proof.
  intros Hne Hdir Hthreads r. subst r. rewrite main_runs by done. cbn zeta.
  cbn [submitted]. unfold build_jobs. split; [apply length_imap|].
  intros k a Ha. apply list_lookup_imap_Some in Ha as (sv & Hsv & ->).
  assert (sv ∈ dedupe deduplicate chapters) as Hin by (apply list_elem_of_lookup; eauto).
  apply dedupe_elem in Hin as (i & ch & Hi & ->).
  exists i, ch. by repeat split.
Qed.

Lemma jobs_cut_their_chapters_witness :
  length (submitted
            (main (λ s _, s) (λ _, Some false) (λ _, true) Qminus (λ _, true)
               [Chapter 0 5 (Some {["title" := "A"]}); Chapter 5 9 (Some {["title" := "A"]});
                Chapter 9 12 (Some {["title" := "B"]})]
               ∅ 44100 false "in.m4b" "out" None true wav)) = 2.
Proof.
  rewrite (proj1 (jobs_cut_their_chapters (λ s _, s) (λ _, Some false) (λ _, true) Qminus
                    (λ _, true)
                    [Chapter 0 5 (Some {["title" := "A"]}); Chapter 5 9 (Some {["title" := "A"]});
                     Chapter 9 12 (Some {["title" := "B"]})]
                    ∅ 44100 "in.m4b" "out" None true wav ltac:(done) eq_refl eq_refl)).
  reflexivity.
Defined.

(** ** The progress bar *)

(** X13.  In a run that dispatches, the bar is created for all the
    chapters of the probe and is advanced once per job that succeeded:
    the updates never exceed the jobs, nor the jobs the chapters.  The
    bar reaches its total exactly when deduplication dropped no chapter
    and no job raised. *)
Theorem progress_bar_bounds
    (slugify : string -> nat -> string)
    (probe_cover : chapter_arg -> option bool) (ffmpeg_run : extract_call -> bool)
    (float_sub : Q -> Q -> Q) (can_create : string -> bool)
    (chapters : list chapter) (global_metadata : gmap string string) (sample_rate : Z)
    (input_file output_folder : string) (threads : option Z)
    (deduplicate : bool) (fmt : format) :
  chapters ≠ [] -> os_makedirs can_create output_folder = None ->
  valid_max_workers threads = true ->
  let r := main slugify probe_cover ffmpeg_run float_sub can_create chapters
             global_metadata sample_rate false input_file output_folder threads
             deduplicate fmt in
  bar_total r = Some (length chapters) /\
  bar_updates r <= length (submitted r) <= length chapters /\
  (bar_updates r = length chapters <->
   length (dedupe deduplicate chapters) = length chapters /\
   count_raised (futures probe_cover ffmpeg_run float_sub (submitted r)) = 0).
Proof.
  intros Hne Hdir Hthreads r. subst r. rewrite main_runs by done. cbn zeta.
  cbn [bar_total bar_updates submitted].
  set (jobs := build_jobs _ _ _ _ _ _ _).
  pose proof (count_done_raised (futures probe_cover ffmpeg_run float_sub jobs)) as Hsum.
  pose proof (sublist_length _ _ (dedupe_sublist deduplicate chapters)) as Hlen.
  rewrite length_imap in Hlen.
  assert (length jobs = length (dedupe deduplicate chapters)) as Hjobs
    by apply length_imap.
  unfold futures in Hsum at 3. rewrite length_fmap in Hsum.
  split; [done|]. split; lia.
Qed.

Lemma progress_bar_bounds_witness :
  bar_updates
    (main (λ s _, s) (λ _, Some false) (λ _, true) Qminus (λ _, true)
       [Chapter 0 5 (Some {["title" := "A"]}); Chapter 5 9 (Some {["title" := "A"]})]
       ∅ 44100 false "in.m4b" "out" (Some 1%Z) true mp3)
  <= length [Chapter 0 5 (Some {["title" := "A"]}); Chapter 5 9 (Some {["title" := "A"]})].
Proof.
  destruct (progress_bar_bounds (λ s _, s) (λ _, Some false) (λ _, true) Qminus (λ _, true)
              [Chapter 0 5 (Some {["title" := "A"]}); Chapter 5 9 (Some {["title" := "A"]})]
              ∅ 44100 "in.m4b" "out" (Some 1%Z) true mp3) as (_ & [H1 H2] & _);
    [done | reflexivity | reflexivity |].
  exact (Nat.le_trans _ _ _ H1 H2).
Defined.

(** ** The checks of [main] and what a run leaves on disk *)

(** X14.  The two checks of [main] come before everything else.  When
    the probe has no chapters (no key ['chapters'] or an empty list), or
    when the output folder exists, [main] prints one line and returns:
    it creates no folder and no progress bar, submits no job and raises
    nothing, even with a worker count the executor would reject.  The
    check of the chapters comes first. *)
Theorem main_checks_first
    (slugify : string -> nat -> string)
    (probe_cover : chapter_arg -> option bool) (ffmpeg_run : extract_call -> bool)
    (float_sub : Q -> Q -> Q) (can_create : string -> bool)
    (p : probe) (folder_exists : bool) (input_file output_folder : string)
    (threads : option Z) (deduplicate : bool) (fmt : format) :
  default [] (probe_chapters p) = [] \/ folder_exists = true ->
  let r := main_of_probe slugify probe_cover ffmpeg_run float_sub can_create p folder_exists
             input_file output_folder threads deduplicate fmt in
  raised r = None /\ folder_created r = false /\ submitted r = [] /\
  bar_total r = None /\ bar_updates r = 0 /\
  echoed r =
    [if bool_decide (default [] (probe_chapters p) = [])
     then "No chapter information found in the M4B file."
     else "Warning: Output folder '" +:+ output_folder +:+ "' already exists."].
Proof.
  intros Hcheck r. subst r. unfold main_of_probe, get_file_info, main. cbn zeta.
  destruct (default [] (probe_chapters p)) as [|c l]; [done|].
  destruct Hcheck as [?| ->]; done.
Qed.

Lemma main_checks_first_witness :
  echoed (main_of_probe (λ s _, s) (λ _, Some false) (λ _, true) Qminus (λ _, false)
            (Probe (Some [Chapter 0 1 None]) None None) true
            "in.m4b" "out" (Some 0%Z) true mp3)
  = ["Warning: Output folder 'out' already exists."].
Proof.
  apply (main_checks_first (λ s _, s) (λ _, Some false) (λ _, true) Qminus (λ _, false)
           (Probe (Some [Chapter 0 1 None]) None None) true
           "in.m4b" "out" (Some 0%Z) true mp3).
  by right.
Defined.

(** X15.  A run that gets past the two checks and whose [os.makedirs]
    succeeds has created the output folder, also when the executor then
    rejects the worker count.  A second run on the same output folder,
    which now exists, stops at the warning: it submits no job and raises
    nothing, whatever its own options are.  When [os.makedirs] raises
    instead, the run ends with that exception and no folder. *)
Theorem second_run_only_warns
    (slugify : string -> nat -> string)
    (probe_cover : chapter_arg -> option bool) (ffmpeg_run : extract_call -> bool)
    (float_sub : Q -> Q -> Q) (can_create : string -> bool)
    (chapters : list chapter) (global_metadata : gmap string string) (sample_rate : Z)
    (input_file output_folder : string) (threads threads' : option Z)
    (deduplicate deduplicate' : bool) (fmt fmt' : format) :
  chapters ≠ [] ->
  let first := main slugify probe_cover ffmpeg_run float_sub can_create chapters
                 global_metadata sample_rate false input_file output_folder threads
                 deduplicate fmt in
  let second := main slugify probe_cover ffmpeg_run float_sub can_create chapters
                  global_metadata sample_rate (folder_created first) input_file
                  output_folder threads' deduplicate' fmt' in
  (os_makedirs can_create output_folder = None ->
   folder_created first = true /\
   echoed second = ["Warning: Output folder '" +:+ output_folder +:+ "' already exists."] /\
   submitted second = [] /\ bar_updates second = 0 /\ raised second = None /\
   folder_created second = false) /\
  (forall exn, os_makedirs can_create output_folder = Some exn ->
   folder_created first = false /\ raised first = Some exn /\
   echoed first = [] /\ submitted first = [] /\ bar_total first = None).
Proof.
  intros Hne first second. split.
  - intros Hdir.
    assert (folder_created first = true) as Hfirst.
    { subst first. unfold main. destruct chapters; [done|]. rewrite Hdir.
      by destruct (valid_max_workers threads). }
    subst second. rewrite Hfirst. unfold main. by destruct chapters.
  - intros exn Hdir. subst first. unfold main. destruct chapters; [done|].
    by rewrite Hdir.
Qed.

Lemma second_run_only_warns_witness :
  let first := main (λ s _, s) (λ _, Some false) (λ _, true) Qminus (λ _, true)
                 [Chapter 0 1 None] ∅ 44100 false "in.m4b" "out" (Some 0%Z) true mp3 in
  raised first = Some "ValueError: max_workers must be greater than 0" /\
  echoed (main (λ s _, s) (λ _, Some false) (λ _, true) Qminus (λ _, true)
            [Chapter 0 1 None] ∅ 44100 (folder_created first) "in.m4b" "out"
            (Some 4%Z) true mp3)
  = ["Warning: Output folder '" +:+ "out" +:+ "' already exists."].
Proof.
  intros first. split; [reflexivity|].
  apply (second_run_only_warns (λ s _, s) (λ _, Some false) (λ _, true) Qminus (λ _, true)
           [Chapter 0 1 None] ∅ 44100 "in.m4b" "out" (Some 0%Z) (Some 4%Z) true true mp3 mp3).
  - done.
  - reflexivity.
Defined.

Lemma count_done_probed (probe_cover : chapter_arg -> option bool)
    (ffmpeg_run : extract_call -> bool) (float_sub : Q -> Q -> Q) (jobs : list chapter_arg) :
  count_done (futures probe_cover ffmpeg_run float_sub jobs)
  <= length (filter (λ a, is_Some (probe_cover a)) jobs).
Proof.
  unfold count_done, futures. induction jobs as [|a jobs IH]; [done|].
  assert (is_done (process_chapter probe_cover ffmpeg_run float_sub a) = true ->
          is_Some (probe_cover a)) as Hdone.
  { unfold process_chapter. destruct (probe_cover a); [eauto | done]. }
  rewrite fmap_cons, !filter_cons.
  destruct (decide (is_done (process_chapter probe_cover ffmpeg_run float_sub a) = true))
    as [Hd|Hd];
    destruct (decide (is_Some (probe_cover a))) as [Hp|Hp]; simpl in *; try lia.
  by destruct Hp, Hdone.
Qed.

(** X16.  Each job probes the input file for a cover before it runs
    the engine.  A job whose probe raises is a failed job, whatever
    [ffmpeg.run] would have done for it.  So in a run that dispatches
    the bar gets at most one update per job whose probe succeeded, and
    none when the probe raises for every job; [main] prints its summary
    all the same. *)
Theorem cover_probe_failure_fails_job
    (slugify : string -> nat -> string)
    (probe_cover : chapter_arg -> option bool) (ffmpeg_run : extract_call -> bool)
    (float_sub : Q -> Q -> Q) (can_create : string -> bool)
    (chapters : list chapter) (global_metadata : gmap string string) (sample_rate : Z)
    (input_file output_folder : string) (threads : option Z)
    (deduplicate : bool) (fmt : format) :
  chapters ≠ [] -> os_makedirs can_create output_folder = None ->
  valid_max_workers threads = true ->
  let r := main slugify probe_cover ffmpeg_run float_sub can_create chapters
             global_metadata sample_rate false input_file output_folder threads
             deduplicate fmt in
  (forall a, a ∈ submitted r -> probe_cover a = None ->
     a ∈ failed_jobs probe_cover ffmpeg_run float_sub (submitted r) /\
     forall ffmpeg_run', process_chapter probe_cover ffmpeg_run' float_sub a = Raised) /\
  bar_updates r <= length (filter (λ a, is_Some (probe_cover a)) (submitted r)) /\
  ((forall a, a ∈ submitted r -> probe_cover a = None) ->
   bar_updates r = 0 /\
   failed_jobs probe_cover ffmpeg_run float_sub (submitted r) = submitted r) /\
  raised r = None /\
  echoed r = summary deduplicate (length chapters) (length (dedupe deduplicate chapters))
               output_folder.
Proof.
  intros Hne Hdir Hthreads r. subst r. rewrite main_runs by done. cbn zeta.
  cbn [submitted bar_updates raised echoed].
  set (jobs := build_jobs _ _ _ _ _ _ _).
  assert (forall a run', probe_cover a = None ->
            process_chapter probe_cover run' float_sub a = Raised) as Hraise.
  { intros a run' Ha. unfold process_chapter. by rewrite Ha. }
  split; [|split; [apply count_done_probed|split; [|done]]].
  - intros a Ha Hprobe. split; [|intros run'; by apply Hraise].
    unfold failed_jobs. apply list_elem_of_filter. split; [|done].
    by rewrite Hraise.
  - intros Hall. split.
    + pose proof (count_done_probed probe_cover ffmpeg_run float_sub jobs) as Hle.
      assert (filter (λ a, is_Some (probe_cover a)) jobs = []) as Hnil.
      { clear Hle. induction jobs as [|a jobs IH]; [done|].
        rewrite filter_cons_False.
        - apply IH. intros b Hb. by apply Hall, list_elem_of_further.
        - rewrite Hall by apply list_elem_of_here. by intros [? ?]. }
      rewrite Hnil in Hle. simpl in Hle. lia.
    + unfold failed_jobs. induction jobs as [|a jobs IH]; [done|].
      rewrite filter_cons_True.
      * f_equal. apply IH. intros b Hb. by apply Hall, list_elem_of_further.
      * rewrite Hraise; [done|]. apply Hall, list_elem_of_here.
Qed.

Lemma cover_probe_failure_fails_job_witness :
  bar_updates
    (main (λ s _, s)
       (λ a, if String.eqb (arg_chapter_title a) "A" then None else Some false)
       (λ _, true) Qminus (λ _, true)
       [Chapter 0 5 (Some {["title" := "A"]}); Chapter 5 9 (Some {["title" := "B"]})]
       ∅ 44100 false "in.m4b" "out" (Some 2%Z) true mp3) <= 1.
Proof.
  destruct (cover_probe_failure_fails_job (λ s _, s)
              (λ a, if String.eqb (arg_chapter_title a) "A" then None else Some false)
              (λ _, true) Qminus (λ _, true)
              [Chapter 0 5 (Some {["title" := "A"]}); Chapter 5 9 (Some {["title" := "B"]})]
              ∅ 44100 "in.m4b" "out" (Some 2%Z) true mp3) as (_ & Hle & _);
    [done | reflexivity | reflexivity |].
  exact Hle.
Defined.
